(** * send_cli_command_to_nfv_inventory: a shallow embedding and its properties

    The script fans one shell command out to a list of ESXi hosts over SSH
    and appends the collected output to [cli_response_text.txt].  This file
    embeds [load_credentials], [check_port], [send_command] and [main] and
    proves what the accompanying specification says about them.

    Effects are explicit.  A computation of the script is a value of
    [M A]: the ordered list of operations it performed on the outside world
    (sockets, SSH sessions, the operator's terminal) together with either
    the value it returned or the Python exception it raised.  What the
    network answers is a parameter of the model ([network]); the file system
    is a finite map from paths to text. *)

From Stdlib Require Import ZArith Ascii String List Lia.
From stdpp Require Import base option list gmap strings pretty.

Local Open Scope Z_scope.

(** ** Text *)

Definition LF : ascii := "010"%char.

(** The one-character string that Python writes as ['\n']. *)
Definition nl : string := String LF EmptyString.

Definition concat_str (ls : list string) : string :=
  foldr String.append EmptyString ls.

(** [readlines()] of a text stream: the text cut after every newline, each
    piece keeping its terminator; a final piece without terminator is kept
    as it is, and an empty text yields no line at all. *)
Fixpoint readlines_from (cur : string) (s : string) : list string :=
  match s with
  | EmptyString =>
      match cur with EmptyString => [] | _ => [cur] end
  | String c rest =>
      if Ascii.eqb c LF then (cur +:+ nl) :: readlines_from EmptyString rest
      else readlines_from (cur +:+ String c EmptyString) rest
  end.

Definition readlines (s : string) : list string := readlines_from EmptyString s.

(** The lines a reader of a text file sees: every newline ends a line, and
    text after the last newline, when there is some, is a last line. *)
Fixpoint text_lines_from (cur : string) (s : string) : list string :=
  match s with
  | EmptyString =>
      match cur with EmptyString => [] | _ => [cur] end
  | String c rest =>
      if Ascii.eqb c LF then cur :: text_lines_from EmptyString rest
      else text_lines_from (cur +:+ String c EmptyString) rest
  end.

Definition text_lines (s : string) : list string := text_lines_from EmptyString s.

Fixpoint has_newline (s : string) : bool :=
  match s with
  | EmptyString => false
  | String c rest => Ascii.eqb c LF || has_newline rest
  end.

(** *** Characters

    A Python [str] is a sequence of Unicode characters.  The model holds it
    as the bytes of its UTF-8 encoding, one [ascii] per byte, so that the
    characters of a text are read off its bytes by [decode_char]. *)

Definition CR : ascii := "013"%char.

Definition byte (c : ascii) : Z := Z.of_N (N_of_ascii c).

(** The bytes [10xxxxxx] that continue a character begun by an earlier
    byte. *)
Definition continuation (c : ascii) : bool :=
  (128 <=? byte c) && (byte c <=? 191).

(** The first character of a text, as its code point, and the text after
    it.  A character takes one to four bytes; encodings longer than needed,
    surrogates and values above U+10FFFF are no characters.  There is no
    first character in the empty text or where the bytes are not the
    encoding of one. *)
Definition decode_char (s : string) : option (Z * string) :=
  match s with
  | EmptyString => None
  | String c1 r1 =>
      if byte c1 <? 128 then Some (byte c1, r1) else
      match r1 with
      | EmptyString => None
      | String c2 r2 =>
          if negb (continuation c2) then None else
          if (192 <=? byte c1) && (byte c1 <? 224) then
            let cp := (byte c1 - 192) * 64 + (byte c2 - 128) in
            if 128 <=? cp then Some (cp, r2) else None
          else
          match r2 with
          | EmptyString => None
          | String c3 r3 =>
              if negb (continuation c3) then None else
              if (224 <=? byte c1) && (byte c1 <? 240) then
                let cp := (byte c1 - 224) * 4096 + (byte c2 - 128) * 64
                          + (byte c3 - 128) in
                if (2048 <=? cp) && negb ((55296 <=? cp) && (cp <=? 57343))
                then Some (cp, r3) else None
              else
              match r3 with
              | EmptyString => None
              | String c4 r4 =>
                  if negb (continuation c4) then None else
                  if (240 <=? byte c1) && (byte c1 <? 248) then
                    let cp := (byte c1 - 240) * 262144 + (byte c2 - 128) * 4096
                              + (byte c3 - 128) * 64 + (byte c4 - 128) in
                    if (65536 <=? cp) && (cp <=? 1114111)
                    then Some (cp, r4) else None
                  else None
              end
          end
      end
  end.

(** Python's [str.isspace] on one character, which is what [str.strip()]
    removes: the characters U+0009 to U+000D (tab, line feed, vertical tab,
    form feed, carriage return), the separators U+001C to U+001F, the space
    U+0020, the next-line control U+0085, the no-break space U+00A0, the
    Ogham space mark U+1680, the spaces U+2000 to U+200A, the line and
    paragraph separators U+2028 and U+2029, and the spaces U+202F, U+205F
    and U+3000. *)
Definition isspace (cp : Z) : bool :=
  ((9 <=? cp) && (cp <=? 13)) || ((28 <=? cp) && (cp <=? 32))
  || (cp =? 133) || (cp =? 160) || (cp =? 5760)
  || ((8192 <=? cp) && (cp <=? 8202)) || (cp =? 8232) || (cp =? 8233)
  || (cp =? 8239) || (cp =? 8287) || (cp =? 12288).

(** [str.lstrip()]: the scan from the left stops at the first character
    that is not white space.  It makes at most one step per byte of the
    text, which is what [steps] counts. *)
Fixpoint lstrip_from (steps : nat) (s : string) : string :=
  match steps with
  | O => s
  | S steps =>
      match decode_char s with
      | Some (cp, rest) => if isspace cp then lstrip_from steps rest else s
      | None => s
      end
  end.

Definition lstrip (s : string) : string := lstrip_from (String.length s) s.

(** A text of white space only, the empty text included. *)
Definition blank (s : string) : bool :=
  match lstrip s with EmptyString => true | _ => false end.

(** [str.rstrip()]: the longest end of the text made of white space only is
    cut off.  An end that begins inside a character is not blank
    ([decode_char] has no character at a continuation byte), so the cut
    falls between two characters. *)
Fixpoint rstrip (s : string) : string :=
  match s with
  | EmptyString => EmptyString
  | String c rest => if blank s then EmptyString else String c (rstrip rest)
  end.

Definition strip (s : string) : string := rstrip (lstrip s).

(** What a file opened with [open(path, "r")] hands to its reader: the
    default [newline=None] turns every line ending of the file, be it a
    carriage return followed by a line feed, a lone carriage return or a
    line feed, into a single line feed. *)
Fixpoint universal_newlines (s : string) : string :=
  match s with
  | EmptyString => EmptyString
  | String c rest =>
      if Ascii.eqb c CR then
        match rest with
        | String c' rest' =>
            if Ascii.eqb c' LF then String LF (universal_newlines rest')
            else String LF (universal_newlines rest)
        | EmptyString => nl
        end
      else String c (universal_newlines rest)
  end.

(** [file.readlines()] on a file opened for reading in text mode. *)
Definition file_readlines (text : string) : list string :=
  readlines (universal_newlines text).

(** ** Exceptions *)

(** The Python exceptions that can reach the script's handlers.  All of them
    derive from [Exception] except [KeyboardInterrupt] and [SystemExit]
    (what [sys.exit] raises), which derive from [BaseException] only and so
    pass through [except Exception]. *)
Inductive exn : Type :=
| socket_timeout (msg : string)
| socket_gaierror (msg : string)
| KeyError (key : string)
| AuthenticationException (msg : string)
| SSHException (msg : string)
| OSError (msg : string)
| FileNotFoundError (path : string)
| JSONDecodeError (msg : string)
| KeyboardInterrupt
| SystemExit (code : Z).

Definition is_socket_timeout (e : exn) : bool :=
  match e with socket_timeout _ => true | _ => false end.

Definition is_FileNotFoundError (e : exn) : bool :=
  match e with FileNotFoundError _ => true | _ => false end.

Definition is_Exception (e : exn) : bool :=
  match e with KeyboardInterrupt | SystemExit _ => false | _ => true end.

(** [str(e)], the text an f-string interpolates for [{e}].  A [KeyError]
    prints the [repr] of its key. *)
Definition str (e : exn) : string :=
  match e with
  | socket_timeout m | socket_gaierror m | AuthenticationException m
  | SSHException m | OSError m | JSONDecodeError m => m
  | KeyError k => "'" +:+ k +:+ "'"
  | FileNotFoundError p => "[Errno 2] No such file or directory: '" +:+ p +:+ "'"
  | KeyboardInterrupt => EmptyString
  | SystemExit c => pretty c
  end.

(** ** Observable operations *)

Inductive event : Type :=
| EvPrint (line : string)                       (* print(...) *)
| EvOpenAppend (path : string)                  (* open(path, "a") *)
| EvWrite (text : string)                       (* outfile.write(text) *)
| EvFileClose                                   (* leaving "with open(...)" *)
| EvExecutor (max_workers : nat)                (* ThreadPoolExecutor(max_workers=...) *)
| EvSubmit (fid : nat) (host : string)          (* executor.submit(send_command, host, ...) *)
| EvResult (fid : nat)                          (* future.result() *)
| EvShutdown                                    (* leaving "with ThreadPoolExecutor(...)" *)
| EvSocket                                      (* socket.socket(AF_INET, SOCK_STREAM) *)
| EvConnectEx (host : string) (port : Z)        (* sock.connect_ex((host, port)) *)
| EvSocketClose                                 (* sock.close() *)
| EvSSHClient                                   (* SSHClient() *)
| EvSetPolicy                                   (* set_missing_host_key_policy(AutoAddPolicy()) *)
| EvConnect (host username password : string)   (* ssh.connect(...) *)
| EvExecCommand (cli_command : string)          (* ssh.exec_command(...) *)
| EvReadStdout                                  (* stdout.readlines() *)
| EvReadStderr                                  (* any read of stderr *)
| EvSSHClose.                                   (* SSHClient.__exit__ *)

Global Instance event_eq_dec : EqDecision event.
Proof. solve_decision. Defined.

(** The operations that touch the network: sockets and SSH sessions. *)
Definition is_network (ev : event) : bool :=
  match ev with
  | EvSocket | EvConnectEx _ _ | EvSocketClose | EvSSHClient | EvSetPolicy
  | EvConnect _ _ _ | EvExecCommand _ | EvReadStdout | EvReadStderr
  | EvSSHClose => true
  | _ => false
  end.

Definition is_handshake (ev : event) : bool :=
  match ev with
  | EvSSHClient | EvSetPolicy | EvConnect _ _ _ | EvExecCommand _
  | EvReadStdout | EvReadStderr | EvSSHClose => true
  | _ => false
  end.

(** ** The effect monad *)

Inductive outcome (A : Type) : Type :=
| Return (a : A)
| Raise (e : exn).
Global Arguments Return {A} a.
Global Arguments Raise {A} e.

Record M (A : Type) : Type := mkM { trace : list event; result : outcome A }.
Global Arguments mkM {A} trace result.
Global Arguments trace {A} m.
Global Arguments result {A} m.

Global Instance M_ret : MRet M := λ A a, mkM [] (Return a).

Global Instance M_bind : MBind M := λ A B f m,
  match result m with
  | Return a => let m' := f a in mkM (trace m ++ trace m') (result m')
  | Raise e => mkM (trace m) (Raise e)
  end.

Definition emit (ev : event) : M unit := mkM [ev] (Return tt).

Definition raise {A} (e : exn) : M A := mkM [] (Raise e).

Definition print (line : string) : M unit := emit (EvPrint line).

(** [try: body / except ...: handler]: the handler sees the exception the
    body raised; an exception it does not handle is raised again by it. *)
Definition try_except {A} (body : M A) (handler : exn → M A) : M A :=
  match result body with
  | Return a => body
  | Raise e => let h := handler e in mkM (trace body ++ trace h) (result h)
  end.

(** [with ctx: body] where leaving the block, normally or by an exception,
    performs [on_exit]. *)
Definition with_exit {A} (on_exit : event) (body : M A) : M A :=
  mkM (trace body ++ [on_exit]) (result body).

(** ** The outside world *)

(** What [ssh.exec_command] hands back on success: the remote command's two
    output streams.  [stdout_failure] is the exception, if any, that reading
    standard output to its end raises. *)
Record channel : Type := mkChannel {
  stdout_text : string;
  stderr_text : string;
  stdout_failure : option exn
}.

(** The answers of the network to one execution of [send_command]. *)
Record network : Type := mkNetwork {
  (* errno returned by connect_ex, or the exception it raises (name
     resolution errors are raised, not returned) *)
  connect_ex_result : string → Z → exn + Z;
  (* ssh.connect(host, username=..., password=...): None when it succeeds *)
  connect_result : string → string → string → option exn;
  (* ssh.exec_command(cli_command) on the session to host *)
  exec_command_result : string → string → exn + channel
}.

(** The parsed credentials file: a JSON object used as a dictionary. *)
Abbreviation credentials_t := (gmap string string).

(** [d[k]] on a dictionary: a missing key raises [KeyError]. *)
Definition getitem (d : credentials_t) (k : string) : M string :=
  match d !! k with
  | Some v => mret v
  | None => raise (KeyError k)
  end.

Definition connect_ex (net : network) (host : string) (port : Z) : M Z :=
  emit (EvConnectEx host port) ;;
  match connect_ex_result net host port with
  | inl e => raise e
  | inr errno => mret errno
  end.

Definition ssh_connect (net : network) (host username password : string) : M unit :=
  emit (EvConnect host username password) ;;
  match connect_result net host username password with
  | Some e => raise e
  | None => mret tt
  end.

Definition exec_command (net : network) (host cli_command : string) : M channel :=
  emit (EvExecCommand cli_command) ;;
  match exec_command_result net host cli_command with
  | inl e => raise e
  | inr chan => mret chan
  end.

Definition stdout_readlines (chan : channel) : M (list string) :=
  emit EvReadStdout ;;
  match stdout_failure chan with
  | Some e => raise e
  | None => mret (readlines (stdout_text chan))
  end.

(** ** check_port *)

Definition check_port (net : network) (host : string) (port : Z) : M bool :=
  emit EvSocket ;;
  result ← connect_ex net host port;
  mret (result =? 0).

(** ** send_command *)

Definition port_closed_message (host : string) : string :=
  "The ESXi host " +:+ host +:+ " is not listening on port 22.".

Definition timeout_message (host : string) : string :=
  "Socket timeout when trying to connect to " +:+ host +:+ ".".

Definition failure_prefix (host : string) : string :=
  "Unable to connect to " +:+ host +:+
  " with provided credentials. The host may have non-standard credentials. Error: ".

Definition failure_message (host : string) (e : exn) : string :=
  failure_prefix host +:+ str e.

(** The body of the [try]: the [with ssh:] block. *)
Definition ssh_session (net : network) (host : string)
    (credentials : credentials_t) (cli_command : string) : M (list string) :=
  with_exit EvSSHClose (
    username ← getitem credentials "username";
    password ← getitem credentials "password";
    ssh_connect net host username password ;;
    chan ← exec_command net host cli_command;
    output ← stdout_readlines chan;
    mret output).

(** The two [except] clauses, in order, followed by the final [return []]. *)
Definition send_command_handler (host : string) (e : exn) : M (list string) :=
  if is_socket_timeout e then
    print (timeout_message host) ;; mret []
  else if is_Exception e then
    print (failure_message host e) ;; mret []
  else raise e.

Definition send_command (net : network) (host : string)
    (credentials : credentials_t) (cli_command : string) : M (list string) :=
  open ← check_port net host 22;
  if negb open then
    print (port_closed_message host) ;;
    mret []
  else
    emit EvSSHClient ;;
    emit EvSetPolicy ;;
    try_except (ssh_session net host credentials cli_command)
               (send_command_handler host).

(** ** Files and command-line arguments *)

(** The file system: the text of each existing file, by path, that is the
    characters its bytes decode to, before any translation of line
    endings. *)
Abbreviation files := (gmap string string).

(** The values [argparse] hands to [main]. *)
Record arguments : Type := mkArguments {
  inventory_file : string;
  command : string;
  credentials_file : string
}.

Definition report_file : string := "cli_response_text.txt".

(** [open(path, "r")]: the text of the file for the reader that follows,
    [file_readlines] for the inventory and [json_load] for the credentials;
    a missing file raises [FileNotFoundError]. *)
Definition open_read (fs : files) (path : string) : M string :=
  match fs !! path with
  | Some text => mret text
  | None => raise (FileNotFoundError path)
  end.

Definition sys_exit {A} (code : Z) : M A := raise (SystemExit code).

Definition missing_file_message (file_name : string) : string :=
  "The file " +:+ file_name +:+ " does not exist.".

Definition write (text : string) : M unit := emit (EvWrite text).

(** [outfile.writelines(lines)]: every item is written as it is; no
    separator or terminator is added. *)
Fixpoint writelines (lines : list string) : M unit :=
  match lines with
  | [] => mret tt
  | line :: rest => write line ;; writelines rest
  end.

(** ** Futures and the dictionary keyed by them *)

(** A [Future] is an object: two futures are the same key exactly when they
    are the same object, which [fid], the rank of its creation, stands for.
    [work] is the call the future was created for. *)
Record future : Type := mkFuture { fid : nat; work : M (list string) }.

Definition same_future (f g : future) : bool := Nat.eqb (fid f) (fid g).

(** A Python [dict]: insertion-ordered, one entry per key; assigning to a
    key already present replaces its value in place. *)
Fixpoint dict_set (d : list (future * string)) (k : future) (v : string)
    : list (future * string) :=
  match d with
  | [] => [(k, v)]
  | (k', v') :: d' =>
      if same_future k' k then (k', v) :: d' else (k', v') :: dict_set d' k v
  end.

Fixpoint dict_get (d : list (future * string)) (k : future) : option string :=
  match d with
  | [] => None
  | (k', v') :: d' => if same_future k' k then Some v' else dict_get d' k
  end.

Definition dict_keys (d : list (future * string)) : list future := d.*1.

(** [futures[future]] *)
Definition dict_getitem (d : list (future * string)) (k : future) : M string :=
  match dict_get d k with
  | Some v => mret v
  | None => raise (KeyError (pretty (fid k)))
  end.

(** [future.result()]: waits for the call to finish, then returns what it
    returned or raises what it raised.  The operations of the call itself
    happen on a worker thread, not in the caller. *)
Definition future_result (fut : future) : M (list string) :=
  mkM [EvResult (fid fut)] (result (work fut)).

(** ** The pool and the report loop *)

Definition max_workers : nat := 10.

Section Dispatch.
(** [call n host] is what the [n]-th submitted call does with its host
    argument.  [main] submits [send_command]; the properties of the pool
    and of the report hold for any callable. *)
Variable call : nat → string → M (list string).
Variable cli_command : string.

(** [executor.submit(fn, host, ...)]; [ex] is the list of calls submitted
    so far.  Submitting never waits and never runs the call in the caller. *)
Definition submit (ex : list future) (host : string) : M (list future * future) :=
  let fut := mkFuture (length ex) (call (length ex) host) in
  emit (EvSubmit (fid fut) host) ;;
  mret (ex ++ [fut], fut).

(** The dictionary comprehension
    [{executor.submit(...): host for host in hosts}]. *)
Fixpoint submit_hosts (hosts : list string) (ex : list future)
    (futures : list (future * string))
    : M (list future * list (future * string)) :=
  match hosts with
  | [] => mret (ex, futures)
  | host :: rest =>
      '(ex', fut) ← submit ex host;
      submit_hosts rest ex' (dict_set futures fut host)
  end.

Definition header (host : string) : string :=
  "Output from " +:+ host +:+ ":" +:+ nl.

(** [for future in futures: ...] *)
Fixpoint report_loop (futures : list (future * string)) (keys : list future)
    : M unit :=
  match keys with
  | [] => mret tt
  | fut :: rest =>
      changes ← future_result fut;
      match changes with
      | [] => mret tt
      | _ :: _ =>
          host ← dict_getitem futures fut;
          write (header host) ;;
          writelines changes ;;
          write nl
      end ;;
      report_loop futures rest
  end.

Definition echo : string :=
  "Command run: " +:+ cli_command +:+ nl.

(** Lines 79 to 89: everything under
    [with open("cli_response_text.txt", "a") as outfile]. *)
Definition write_report (hosts : list string) : M unit :=
  emit (EvOpenAppend report_file) ;;
  with_exit EvFileClose (
    write echo ;;
    emit (EvExecutor max_workers) ;;
    with_exit EvShutdown (
      '(ex, futures) ← submit_hosts hosts [] [];
      report_loop futures (dict_keys futures))).

(** The calls handed to the pool, in submission order. *)
Definition submitted (hosts : list string) : list future :=
  match result (submit_hosts hosts [] []) with
  | Return (ex, _) => ex
  | Raise _ => []
  end.
End Dispatch.

Section Main.
(** [json.load] on the opened credentials file, given by the text of
    that file. *)
Variable json_load : string → exn + credentials_t.

Definition load_credentials (fs : files) (file_name : string) : M credentials_t :=
  try_except
    (text ← open_read fs file_name;
     match json_load text with
     | inl e => raise e
     | inr credentials => mret credentials
     end)
    (λ e, if is_FileNotFoundError e then
            print (missing_file_message file_name) ;; sys_exit 1
          else raise e).

(** Lines 65 to 77: the host list and the credentials. *)
Definition load_inputs (fs : files) (args : arguments)
    : M (list string * credentials_t) :=
  hosts ← try_except
            (text ← open_read fs (inventory_file args);
             mret (strip <$> file_readlines text))
            (λ e, if is_FileNotFoundError e then
                    print (missing_file_message (inventory_file args)) ;; sys_exit 1
                  else raise e);
  credentials ← load_credentials fs (credentials_file args);
  mret (hosts, credentials).

Definition main (fs : files) (args : arguments) (net : nat → network) : M unit :=
  '(hosts, credentials) ← load_inputs fs args;
  let cli_command := command args in
  write_report (λ n host, send_command (net n) host credentials cli_command)
               cli_command hosts.

(** The calls [main] hands to the pool. *)
Definition main_tasks (fs : files) (args : arguments) (net : nat → network)
    : list future :=
  match result (load_inputs fs args) with
  | Return (hosts, credentials) =>
      submitted (λ n host, send_command (net n) host credentials (command args))
                hosts
  | Raise _ => []
  end.
End Main.

(** ** A whole run of the script *)

(** The exit status of the interpreter as the shell that started it sees
    it: 0 when [main] returns; the code of [sys.exit], of which the
    operating system keeps the low eight bits; 130 when a
    [KeyboardInterrupt] is left uncaught, the interpreter then ending
    itself with the interrupt signal; and 1 when any other exception is
    left uncaught. *)
Definition exit_status (r : outcome unit) : Z :=
  match r with
  | Return _ => 0
  | Raise (SystemExit code) => code mod 256
  | Raise KeyboardInterrupt => 130
  | Raise _ => 1
  end.

(** What a trace leaves in the file system: [open(path, "a")] creates the
    file when it is missing and never discards text; every write lands at
    the end of the file opened last. *)
Fixpoint replay (tr : list event) (cur : option string) (fs : files) : files :=
  match tr with
  | [] => fs
  | EvOpenAppend p :: tr' =>
      replay tr' (Some p) (<[p := default EmptyString (fs !! p)]> fs)
  | EvWrite t :: tr' =>
      match cur with
      | Some p => replay tr' cur (<[p := default EmptyString (fs !! p) +:+ t]> fs)
      | None => replay tr' cur fs
      end
  | EvFileClose :: tr' => replay tr' None fs
  | _ :: tr' => replay tr' cur fs
  end.

Record run : Type := mkRun {
  status : Z;                        (* exit status of the process *)
  files_after : files;               (* the file system when it ends *)
  main_thread : list event;          (* operations of the main thread *)
  workers : list (list event)        (* operations of each submitted call *)
}.

Definition run_main (json_load : string → exn + credentials_t)
    (fs : files) (args : arguments) (net : nat → network) : run :=
  let m := main json_load fs args net in
  {| status := exit_status (result m);
     files_after := replay (trace m) None fs;
     main_thread := trace m;
     workers := (λ fut, trace (work fut)) <$> main_tasks json_load fs args net |}.

(** The report file's text, empty when the file does not exist. *)
Definition report_of (fs : files) : string := default EmptyString (fs !! report_file).

(** ** The thread pool as a transition system *)

(** The operations of the main thread that concern the pool. *)
Definition is_pool_op (ev : event) : bool :=
  match ev with
  | EvExecutor _ | EvSubmit _ _ | EvResult _ | EvShutdown => true
  | _ => false
  end.

Definition pool_ops (tr : list event) : list event :=
  filter (λ ev, is_pool_op ev = true) tr.

(** [concurrent.futures.ThreadPoolExecutor] as the main thread and the
    worker threads see it.  The main thread goes through its pool
    operations in program order; worker threads take their steps at any
    moment in between.  The rules are the executor's contract:
    - [submit] queues the call and returns at once;
    - a worker takes the oldest queued call only while fewer than
      [max_workers] calls are being executed;
    - [future.result()] returns only once that call has finished;
    - leaving the [with] block is [shutdown(wait=True)]: it returns only
      when no call is queued or being executed.
    A call that has been taken by a worker always can finish: the model
    does not describe a remote host that never answers. *)
Module Pool.
Local Open Scope nat_scope.

Record state : Type := mkState {
  todo : list event;      (* pool operations the main thread has still to do *)
  capacity : nat;         (* max_workers; 0 as long as there is no executor *)
  queue : list nat;       (* submitted calls no worker has taken yet *)
  running : list nat;     (* calls a worker is executing *)
  finished : list nat     (* calls whose future is done *)
}.

Definition init (program : list event) : state := mkState program 0 [] [] [].

Inductive step : state → state → Prop :=
| step_executor n rest c q r f :
    step (mkState (EvExecutor n :: rest) c q r f) (mkState rest n q r f)
| step_submit k host rest c q r f :
    step (mkState (EvSubmit k host :: rest) c q r f) (mkState rest c (q ++ [k]) r f)
| step_result k rest c q r f :
    k ∈ f →
    step (mkState (EvResult k :: rest) c q r f) (mkState rest c q r f)
| step_shutdown rest c f :
    step (mkState (EvShutdown :: rest) c [] [] f) (mkState rest c [] [] f)
| step_start k t c q r f :
    length r < c →
    step (mkState t c (k :: q) r f) (mkState t c q (k :: r) f)
| step_finish k t c q r1 r2 f :
    step (mkState t c q (r1 ++ k :: r2) f) (mkState t c q (r1 ++ r2) (k :: f)).

Definition reachable (program : list event) (s : state) : Prop :=
  rtc step (init program) s.

(** The run is over when the main thread has left the [with] block. *)
Definition ended (s : state) : Prop := todo s = [].

(** Every step makes this number smaller. *)
Definition measure (s : state) : nat :=
  3 * length (todo s) + 2 * length (queue s) + length (running s).
End Pool.

(** ** Vocabulary of the properties *)

(** The operator-visible lines of a trace. *)
Definition diagnostics (tr : list event) : list string :=
  omap (λ ev, match ev with EvPrint line => Some line | _ => None end) tr.

(** The text a trace writes to the open file. *)
Definition written (tr : list event) : string :=
  concat_str (omap (λ ev, match ev with EvWrite t => Some t | _ => None end) tr).

Definition names_host (msg host : string) : Prop :=
  ∃ pre post, msg = pre +:+ host +:+ post.

Definition closes_socket (tr : list event) : Prop := EvSocketClose ∈ tr.

Definition reads_stderr (ev : event) : bool :=
  match ev with EvReadStderr => true | _ => false end.

Definition is_connect (ev : event) : bool :=
  match ev with EvConnect _ _ _ => true | _ => false end.

Definition is_submit (ev : event) : bool :=
  match ev with EvSubmit _ _ => true | _ => false end.

Definition is_file_ctl (ev : event) : bool :=
  match ev with EvOpenAppend _ | EvFileClose => true | _ => false end.

Definition is_dispatch (ev : event) : bool :=
  match ev with EvExecutor _ | EvSubmit _ _ => true | _ => false end.

Definition lacks_key (credentials : credentials_t) : Prop :=
  credentials !! "username" = None ∨ credentials !! "password" = None.

(** The key whose lookup fails first: [username] is looked up before
    [password]. *)
Definition first_missing_key (credentials : credentials_t) : string :=
  match credentials !! "username" with
  | None => "username"
  | Some _ => "password"
  end.

Definition same_stdout (c1 c2 : channel) : Prop :=
  stdout_text c1 = stdout_text c2 ∧ stdout_failure c1 = stdout_failure c2.

(** Two networks that answer alike except for what commands write to
    standard error. *)
Definition same_but_stderr (net1 net2 : network) : Prop :=
  (∀ host port, connect_ex_result net1 host port = connect_ex_result net2 host port) ∧
  (∀ host u p, connect_result net1 host u p = connect_result net2 host u p) ∧
  (∀ host cmd,
     match exec_command_result net1 host cmd, exec_command_result net2 host cmd with
     | inl e1, inl e2 => e1 = e2
     | inr c1, inr c2 => same_stdout c1 c2
     | _, _ => False
     end).

(** The futures of a host list together with their hosts, numbered from
    [base]: what the dictionary comprehension builds. *)
Definition tasks (call : nat → string → M (list string)) (base : nat)
    (hosts : list string) : list (future * string) :=
  imap (λ i host, (mkFuture (base + i) (call (base + i)%nat host), host)) hosts.
Global Arguments tasks : simpl never.

(** What a finished call returned, nothing when it raised. *)
Definition output (fut : future) : list string :=
  match result (work fut) with
  | Return changes => changes
  | Raise _ => []
  end.

(** The writes of one pass through the loop body. *)
Definition entry_events (host : string) (changes : list string) : list event :=
  match changes with
  | [] => []
  | _ :: _ => EvWrite (header host) :: (EvWrite <$> changes) ++ [EvWrite nl]
  end.

(** The loop over the dictionary, entry by entry: it stops at the first
    future whose [result()] raises. *)
Fixpoint loop_outcome (entries : list (future * string)) : M unit :=
  match entries with
  | [] => mret tt
  | (fut, host) :: rest =>
      match result (work fut) with
      | Return changes =>
          mkM (EvResult (fid fut) :: entry_events host changes ++ trace (loop_outcome rest))
              (result (loop_outcome rest))
      | Raise e => mkM [EvResult (fid fut)] (Raise e)
      end
  end.

(** The text of one host's entry in the report. *)
Definition entry_text (host : string) (changes : list string) : string :=
  match changes with
  | [] => EmptyString
  | _ :: _ => header host +:+ concat_str changes +:+ nl
  end.

(** The text one run adds to the report when the [i]-th call returns
    [results i]. *)
Definition report_text (cmd : string) (hosts : list string)
    (results : nat → list string) : string :=
  echo cmd +:+ concat_str (imap (λ i host, entry_text host (results i)) hosts).

(** A text made of the given lines, each followed by a newline. *)
Definition unlines (ls : list string) : string :=
  concat_str ((λ l, l +:+ nl) <$> ls).

(** The report as the specification lays it out, in lines: for a host with
    output, a header line, the output lines, and a blank line. *)
Definition entry_lines (host : string) (lines : list string) : list string :=
  match lines with
  | [] => []
  | _ :: _ => ("Output from " +:+ host +:+ ":") :: lines ++ [EmptyString]
  end.

Definition report_lines (cmd : string) (hosts : list string)
    (lines : nat → list string) : list string :=
  ("Command run: " +:+ cmd) ::
  concat (imap (λ i host, entry_lines host (lines i)) hosts).

(** An event that is neither a file operation, nor a network operation,
    nor a dispatch. *)
Definition quiet (ev : event) : Prop :=
  is_file_ctl ev = false ∧ is_network ev = false ∧ is_dispatch ev = false.

(** ** Sample inputs *)

Definition sample_credentials : credentials_t :=
  <["username" := "root"]> (<["password" := "vmware"]> ∅).

(** A host that accepts the connection and whose command prints [stdout]. *)
Definition host_printing (stdout : string) : network :=
  mkNetwork (λ _ _, inr 0) (λ _ _ _, None)
            (λ _ _, inr (mkChannel stdout "warning: deprecated" None)).

(** A host with nothing listening on the port: [connect_ex] returns
    ECONNREFUSED. *)
Definition host_refusing : network :=
  mkNetwork (λ _ _, inr 111) (λ _ _ _, None)
            (λ _ _, inr (mkChannel EmptyString EmptyString None)).

(** A host that accepts the TCP connection and then lets the SSH connection
    run into its timeout. *)
Definition host_timing_out : network :=
  mkNetwork (λ _ _, inr 0) (λ _ _ _, Some (socket_timeout "timed out"))
            (λ _ _, inr (mkChannel EmptyString EmptyString None)).

(** A host that rejects the password. *)
Definition host_rejecting : network :=
  mkNetwork (λ _ _, inr 0)
            (λ _ _ _, Some (AuthenticationException "Authentication failed."))
            (λ _ _, inr (mkChannel EmptyString EmptyString None)).

(** A host that never answers the TCP connection: the blocking [connect_ex]
    gives up after the platform's timeout and returns ETIMEDOUT. *)
Definition host_unreachable : network :=
  mkNetwork (λ _ _, inr 110) (λ _ _ _, None)
            (λ _ _, inr (mkChannel EmptyString EmptyString None)).

(** A host on which the command fails: its shell complains on standard
    error and prints nothing on standard output. *)
Definition host_failing_command : network :=
  mkNetwork (λ _ _, inr 0) (λ _ _ _, None)
            (λ _ _, inr (mkChannel EmptyString ("sh: net-stats: not found" +:+ nl) None)).

(** The example of the specification: A prints one line, B is closed, C
    prints two lines.  Here A's line comes without a final newline. *)
Definition sample_network (n : nat) : network :=
  match n with
  | 0%nat => host_printing "x"
  | 1%nat => host_refusing
  | _ => host_printing ("y" +:+ nl +:+ "z" +:+ nl)
  end.

(** The same with every line terminated. *)
Definition sample_network_terminated (n : nat) : network :=
  match n with
  | 0%nat => host_printing ("x" +:+ nl)
  | 1%nat => host_refusing
  | _ => host_printing ("y" +:+ nl +:+ "z" +:+ nl)
  end.

Definition sample_lines (n : nat) : list string :=
  match n with
  | 0%nat => ["x"]
  | 1%nat => []
  | _ => ["y"; "z"]
  end.

Definition sample_arguments : arguments :=
  mkArguments "inventory.txt" "net-stats -l" "credentials.json".

Definition sample_files : files :=
  <["inventory.txt" := "A" +:+ nl +:+ "B" +:+ nl +:+ "C" +:+ nl]>
    (<["credentials.json" := "{...}"]> ∅).

(** A stand-in for [json.load] that knows the sample credentials file. *)
Definition sample_json_load (text : string) : exn + credentials_t :=
  if String.eqb text "{...}" then inr sample_credentials
  else if String.eqb text "{}" then inr ∅
  else inl (JSONDecodeError "Expecting value: line 1 column 1 (char 0)").

(** The network [net] with every command writing [err] to standard error. *)
Definition with_stderr (err : string) (net : network) : network :=
  mkNetwork (connect_ex_result net) (connect_result net)
    (λ host cmd,
       match exec_command_result net host cmd with
       | inl e => inl e
       | inr chan => inr (mkChannel (stdout_text chan) err (stdout_failure chan))
       end).

(** An inventory that names the same host twice; the first call finds it
    answering, the second finds the port closed. *)
Definition sample_duplicates : list string := ["esxi-01"; "esxi-01"].

Definition sample_flapping (n : nat) : network :=
  match n with
  | 0%nat => host_printing ("vmnic0" +:+ nl)
  | _ => host_refusing
  end.

Definition sample_flapping_results (n : nat) : list string :=
  match n with
  | 0%nat => ["vmnic0" +:+ nl]
  | _ => []
  end.

(** ** The shape of the main thread's pool program *)

(** [future.result()] operations on futures numbered below [n]. *)
Definition results_below (n : nat) (rs : list event) : Prop :=
  Forall (λ ev, ∃ k, ev = EvResult k ∧ (k < n)%nat) rs.

(** The states a run over [n] hosts goes through: before the executor
    exists; while the main thread submits, waits for results and reaches
    the end of the [with] block ([j] calls submitted so far, each of them
    queued, running or finished, and never more than [max_workers]
    running); and after the [with] block. *)
Inductive pool_inv (n : nat) : Pool.state → Prop :=
| pool_inv_start hosts rs :
    length hosts = n → results_below n rs →
    pool_inv n (Pool.mkState
                  (EvExecutor max_workers :: imap EvSubmit hosts ++ rs ++ [EvShutdown])
                  0 [] [] [])
| pool_inv_pool j hosts rs q r f :
    (j + length hosts = n)%nat → results_below n rs →
    q ++ r ++ f ≡ₚ seq 0 j →
    (length r ≤ max_workers)%nat →
    pool_inv n (Pool.mkState
                  (imap (λ i host, EvSubmit (j + i) host) hosts ++ rs ++ [EvShutdown])
                  max_workers q r f)
| pool_inv_end f :
    f ≡ₚ seq 0 n →
    pool_inv n (Pool.mkState [] max_workers [] [] f).

(** Twelve hosts, two more than the pool has workers. *)
Definition sample_rack : list string :=
  (λ n, "esxi-" +:+ pretty n) <$> seq 0 12.

(** ** Vocabulary of the further properties *)

(** The call on [host] goes all the way through and the command prints
    [out] on its standard output. *)
Definition prints (net : network) (host : string) (credentials : credentials_t)
    (cli_command out : string) : Prop :=
  connect_ex_result net host 22 = inr 0 ∧
  ∃ u p chan,
    credentials !! "username" = Some u ∧ credentials !! "password" = Some p ∧
    connect_result net host u p = None ∧
    exec_command_result net host cli_command = inr chan ∧
    stdout_failure chan = None ∧ stdout_text chan = out.

(** One host's entry in the report when its command printed [out]. *)
Definition entry_of_stdout (host out : string) : string :=
  match out with
  | EmptyString => EmptyString
  | _ => header host +:+ out +:+ nl
  end.

(** A network on which [connect_ex] always returns an error indicator and
    whatever else fails raises an exception derived from [Exception]. *)
Definition raises_only_exceptions (net : network) : Prop :=
  (∀ host port, ∃ errno, connect_ex_result net host port = inr errno) ∧
  (∀ host u p e, connect_result net host u p = Some e → is_Exception e = true) ∧
  (∀ host cmd e, exec_command_result net host cmd = inl e → is_Exception e = true) ∧
  (∀ host cmd chan e, exec_command_result net host cmd = inr chan →
                      stdout_failure chan = Some e → is_Exception e = true).

(** What the call submitted for the [i]-th host returned, nothing when it
    raised or when there is no such host. *)
Definition call_output (call : nat → string → M (list string)) (hosts : list string)
    (i : nat) : list string :=
  match hosts !! i with
  | Some host => output (mkFuture i (call i host))
  | None => []
  end.

(** A host whose name cannot be resolved: [connect_ex] raises. *)
Definition host_unresolvable : network :=
  mkNetwork (λ _ _, inl (socket_gaierror "[Errno -2] Name or service not known"))
            (λ _ _ _, None)
            (λ _ _, inr (mkChannel EmptyString EmptyString None)).

(** The second of three hosts cannot be resolved. *)
Definition sample_network_unresolvable (n : nat) : network :=
  match n with
  | 0%nat => host_printing ("x" +:+ nl)
  | 1%nat => host_unresolvable
  | _ => host_printing ("y" +:+ nl +:+ "z" +:+ nl)
  end.

(** Every failure a session can meet, one per host. *)
Definition sample_network_failing (n : nat) : network :=
  match n with
  | 0%nat => host_timing_out
  | 1%nat => host_rejecting
  | _ => host_printing ("y" +:+ nl +:+ "z" +:+ nl)
  end.

(** The no-break space U+00A0 and the ideographic space U+3000. *)
Definition no_break_space : string := String "194"%char (String "160"%char EmptyString).

Definition ideographic_space : string :=
  String "227"%char (String "128"%char (String "128"%char EmptyString)).

(** The letter a with grave accent, U+00E0: its second byte is that of the
    no-break space. *)
Definition a_grave : string := String "195"%char (String "160"%char EmptyString).

(** An inventory with white space around its names, the three kinds of
    line ending, a blank line, and a last line without newline. *)
Definition sample_untidy_inventory : string :=
  "  esxi-01 " +:+ String CR nl +:+ nl
  +:+ no_break_space +:+ "esxi-02" +:+ ideographic_space +:+ String CR EmptyString
  +:+ "esxi-03".

(** How many events of a trace satisfy [p]. *)
Definition count_events (p : event → bool) (tr : list event) : nat :=
  length (List.filter p tr).

Definition is_probe (ev : event) : bool :=
  match ev with EvConnectEx _ _ => true | _ => false end.

Definition is_exec (ev : event) : bool :=
  match ev with EvExecCommand _ => true | _ => false end.

(** * Properties *)

(** ** The monad and text *)

Lemma bind_return {A B} tr (a : A) (f : A → M B) :
  mkM tr (Return a) ≫= f = mkM (tr ++ trace (f a)) (result (f a)).
Proof. reflexivity. Qed.

Lemma append_cons c (a b : string) : String c a +:+ b = String c (a +:+ b).
Proof. reflexivity. Qed.

Lemma append_empty_l (a : string) : EmptyString +:+ a = a.
Proof. reflexivity. Qed.

Lemma append_empty_r (a : string) : a +:+ EmptyString = a.
Proof. induction a as [|ch a IH]; [done|by rewrite append_cons, IH]. Qed.

Lemma app_string_assoc (a b c : string) : (a +:+ b) +:+ c = a +:+ (b +:+ c).
Proof. induction a as [|ch a IH]; [done|by rewrite !append_cons, IH]. Qed.

Lemma length_append (a b : string) :
  String.length (a +:+ b) = (String.length a + String.length b)%nat.
Proof. induction a as [|ch a IH]; [done|]. rewrite append_cons. cbn. by rewrite IH. Qed.

Lemma concat_str_app l1 l2 : concat_str (l1 ++ l2) = concat_str l1 +:+ concat_str l2.
Proof.
  induction l1 as [|s l1 IH]; [done|]. unfold concat_str in *. cbn.
  by rewrite IH, app_string_assoc.
Qed.

Lemma has_newline_app a b : has_newline (a +:+ b) = has_newline a || has_newline b.
Proof.
  induction a as [|c a IH]; [done|]. rewrite append_cons. cbn. rewrite IH.
  by rewrite orb_assoc.
Qed.

Lemma text_lines_from_line l : ∀ cur rest,
  has_newline l = false →
  text_lines_from cur (l +:+ nl +:+ rest) = (cur +:+ l) :: text_lines_from EmptyString rest.
Proof.
  induction l as [|c l IH]; intros cur rest Hl.
  - rewrite append_empty_l, append_empty_r. reflexivity.
  - cbn in Hl. apply orb_false_elim in Hl as [Hc Hl].
    rewrite append_cons. cbn [text_lines_from]. rewrite Hc.
    rewrite IH by done. f_equal. by rewrite app_string_assoc.
Qed.

Lemma unlines_cons l ls : unlines (l :: ls) = l +:+ nl +:+ unlines ls.
Proof. unfold unlines. cbn. by rewrite app_string_assoc. Qed.

Lemma unlines_app l1 l2 : unlines (l1 ++ l2) = unlines l1 +:+ unlines l2.
Proof. unfold unlines. by rewrite fmap_app, concat_str_app. Qed.

Lemma unlines_concat (ls : list (list string)) :
  unlines (concat ls) = concat_str (unlines <$> ls).
Proof.
  induction ls as [|l ls IH]; [done|].
  cbn [concat fmap list_fmap]. by rewrite unlines_app, IH.
Qed.

Lemma text_lines_unlines ls :
  Forall (λ l, has_newline l = false) ls → text_lines (unlines ls) = ls.
Proof.
  unfold text_lines. induction 1 as [|l ls Hl _ IH]; [done|].
  rewrite unlines_cons, text_lines_from_line by done. by rewrite IH.
Qed.

Lemma diagnostics_app t1 t2 : diagnostics (t1 ++ t2) = diagnostics t1 ++ diagnostics t2.
Proof. apply omap_app. Qed.

Lemma written_app t1 t2 : written (t1 ++ t2) = written t1 +:+ written t2.
Proof. unfold written. by rewrite omap_app, concat_str_app. Qed.

Lemma written_writes lines : written (EvWrite <$> lines) = concat_str lines.
Proof.
  unfold written. f_equal. induction lines as [|l lines IH]; [done|]. cbn. by rewrite IH.
Qed.

Lemma written_prints pre :
  Forall (λ ev, ∃ line, ev = EvPrint line) pre → written pre = EmptyString.
Proof. induction 1 as [|ev pre [line ->] _ IH]; [done|]. by cbn. Qed.

Lemma written_imap (f : nat → string → event) hosts :
  (∀ i h t, f i h ≠ EvWrite t) → written (imap f hosts) = EmptyString.
Proof.
  revert f. induction hosts as [|h hosts IH]; intros f Hf; [done|].
  rewrite imap_cons. unfold written in *. cbn [omap list_omap].
  specialize (IH (f ∘ S)). destruct (f 0%nat h) eqn:E; try (apply IH; intros; apply Hf).
  by apply Hf in E.
Qed.

Lemma Forall_filter_id {A} (P : A → Prop) `{∀ x, Decision (P x)} (l : list A) :
  Forall P l → filter P l = l.
Proof.
  induction 1 as [|x l Hx _ IH]; [done|]. rewrite filter_cons_True by done. by rewrite IH.
Qed.

Lemma Forall_filter_nil {A} (P : A → Prop) `{∀ x, Decision (P x)} (l : list A) :
  Forall (λ x, ¬ P x) l → filter P l = [].
Proof.
  induction 1 as [|x l Hx _ IH]; [done|]. by rewrite filter_cons_False.
Qed.

(** ** check_port *)

Lemma check_port_trace net host port :
  trace (check_port net host port) = [EvSocket; EvConnectEx host port].
Proof.
  unfold check_port, connect_ex.
  destruct (connect_ex_result net host port); reflexivity.
Qed.

Lemma check_port_result net host port :
  result (check_port net host port) =
  match connect_ex_result net host port with
  | inl e => Raise e
  | inr errno => Return (errno =? 0)
  end.
Proof.
  unfold check_port, connect_ex.
  destruct (connect_ex_result net host port); reflexivity.
Qed.

(** ** send_command *)

Lemma send_command_closed net host creds cmd :
  result (check_port net host 22) = Return false →
  send_command net host creds cmd =
  mkM [EvSocket; EvConnectEx host 22; EvPrint (port_closed_message host)] (Return []).
Proof.
  intros H. unfold send_command.
  unfold mbind at 1. unfold M_bind. rewrite H, check_port_trace. reflexivity.
Qed.

Lemma send_command_probe_raises net host creds cmd e :
  result (check_port net host 22) = Raise e →
  send_command net host creds cmd = mkM [EvSocket; EvConnectEx host 22] (Raise e).
Proof.
  intros H. unfold send_command.
  unfold mbind at 1. unfold M_bind. rewrite H, check_port_trace. reflexivity.
Qed.

Lemma send_command_open net host creds cmd :
  result (check_port net host 22) = Return true →
  send_command net host creds cmd =
  let s := ssh_session net host creds cmd in
  match result s with
  | Return out =>
      mkM ([EvSocket; EvConnectEx host 22; EvSSHClient; EvSetPolicy] ++ trace s)
          (Return out)
  | Raise e =>
      mkM ([EvSocket; EvConnectEx host 22; EvSSHClient; EvSetPolicy] ++ trace s ++
           trace (send_command_handler host e))
          (result (send_command_handler host e))
  end.
Proof.
  intros H. unfold send_command.
  unfold mbind at 1. unfold M_bind at 1. rewrite H, check_port_trace. cbn [negb].
  generalize (ssh_session net host creds cmd). intros [t [out|e]]; reflexivity.
Qed.

Lemma ssh_session_cases net host creds cmd :
  let s := ssh_session net host creds cmd in
  diagnostics (trace s) = [] ∧ existsb reads_stderr (trace s) = false.
Proof.
  unfold ssh_session, with_exit, getitem, ssh_connect, exec_command, stdout_readlines.
  cbn.
  destruct (creds !! "username") as [u|]; cbn; [|done].
  destruct (creds !! "password") as [p|]; cbn; [|done].
  destruct (connect_result net host u p); cbn; [done|].
  destruct (exec_command_result net host cmd) as [e|chan]; cbn; [done|].
  destruct (stdout_failure chan); cbn; done.
Qed.

Lemma ssh_session_lacks_key net host creds cmd :
  lacks_key creds →
  ssh_session net host creds cmd =
  mkM [EvSSHClose] (Raise (KeyError (first_missing_key creds))).
Proof.
  unfold lacks_key, ssh_session, with_exit, getitem, first_missing_key.
  intros [H|H].
  - rewrite H. reflexivity.
  - destruct (creds !! "username") as [u|]; [|reflexivity]. rewrite H. reflexivity.
Qed.

Lemma timeout_not_port_closed host host' :
  timeout_message host ≠ port_closed_message host'.
Proof. unfold timeout_message, port_closed_message. cbn. discriminate. Qed.

Lemma port_closed_names_host host : names_host (port_closed_message host) host.
Proof. by exists "The ESXi host ", " is not listening on port 22.". Qed.

Lemma failure_names_host host e : names_host (failure_message host e) host.
Proof.
  exists "Unable to connect to ",
    (" with provided credentials. The host may have non-standard credentials. Error: "
     +:+ str e).
  unfold failure_message, failure_prefix. by rewrite !app_string_assoc.
Qed.

Lemma send_command_same_but_stderr net1 net2 host creds cmd :
  same_but_stderr net1 net2 →
  send_command net1 host creds cmd = send_command net2 host creds cmd.
Proof.
  intros (Hc & Hs & He).
  unfold send_command, check_port, connect_ex, ssh_session, with_exit, getitem,
    ssh_connect, exec_command, stdout_readlines.
  rewrite Hc. destruct (connect_ex_result net2 host 22) as [e|errno]; [reflexivity|].
  cbn. destruct (errno =? 0); cbn; [|reflexivity].
  destruct (creds !! "username") as [u|]; [|reflexivity].
  destruct (creds !! "password") as [p|]; [|reflexivity].
  cbn. rewrite Hs. destruct (connect_result net2 host u p); [reflexivity|].
  specialize (He host cmd).
  destruct (exec_command_result net1 host cmd) as [e1|c1],
           (exec_command_result net2 host cmd) as [e2|c2]; try done.
  - by subst.
  - destruct He as [Ht Hf]. cbn. rewrite Ht, Hf. reflexivity.
Qed.

Lemma send_command_success net host creds cmd u p chan :
  connect_ex_result net host 22 = inr 0 →
  creds !! "username" = Some u → creds !! "password" = Some p →
  connect_result net host u p = None →
  exec_command_result net host cmd = inr chan →
  stdout_failure chan = None →
  send_command net host creds cmd =
  mkM [EvSocket; EvConnectEx host 22; EvSSHClient; EvSetPolicy; EvConnect host u p;
       EvExecCommand cmd; EvReadStdout; EvSSHClose]
      (Return (readlines (stdout_text chan))).
Proof.
  intros H1 H2 H3 H4 H5 H6.
  unfold send_command, check_port, connect_ex, ssh_session, with_exit, getitem,
    ssh_connect, exec_command, stdout_readlines.
  rewrite H1. cbn. rewrite H2, H3. cbn. rewrite H4. cbn. rewrite H5. cbn. rewrite H6.
  reflexivity.
Qed.

Lemma send_command_no_stderr net host creds cmd :
  existsb reads_stderr (trace (send_command net host creds cmd)) = false.
Proof.
  destruct (result (check_port net host 22)) as [[]|e] eqn:Hp.
  - rewrite (send_command_open _ _ _ _ Hp). cbn zeta.
    pose proof (ssh_session_cases net host creds cmd) as [_ Hs]. cbn zeta in Hs.
    destruct (result (ssh_session net host creds cmd)) as [out|e]; cbn [trace].
    + rewrite existsb_app, Hs. reflexivity.
    + rewrite !existsb_app, Hs. unfold send_command_handler.
      destruct (is_socket_timeout e); [reflexivity|]. destruct (is_Exception e); reflexivity.
  - by rewrite (send_command_closed _ _ _ _ Hp).
  - by rewrite (send_command_probe_raises _ _ _ _ _ Hp).
Qed.

Lemma missing_key_per_host net host creds cmd :
  lacks_key creds →
  result (check_port net host 22) = Return true →
  let m := send_command net host creds cmd in
  let e := KeyError (first_missing_key creds) in
  result m = Return [] ∧
  diagnostics (trace m) = [failure_message host e] ∧
  names_host (failure_message host e) host ∧
  existsb is_connect (trace m) = false.
Proof.
  intros Hk Hp. cbn zeta. rewrite (send_command_open _ _ _ _ Hp). cbn zeta.
  rewrite (ssh_session_lacks_key _ _ _ _ Hk). cbn.
  split_and!; [done|done|apply failure_names_host|done].
Qed.

(** ** The dictionary of futures *)

Lemma dict_set_fresh d k v :
  Forall (λ kv, fid kv.1 ≠ fid k) d → dict_set d k v = d ++ [(k, v)].
Proof.
  induction 1 as [|[k' v'] d Hk _ IH]; [done|]. cbn in *.
  unfold same_future. rewrite (proj2 (Nat.eqb_neq _ _) Hk). by rewrite IH.
Qed.

Lemma dict_get_lookup d k v :
  NoDup (fid <$> d.*1) → (k, v) ∈ d → dict_get d k = Some v.
Proof.
  induction d as [|[k' v'] d IH]; intros Hnd Hin; [by apply elem_of_nil in Hin|].
  cbn in *. apply NoDup_cons in Hnd as [Hk Hnd].
  apply elem_of_cons in Hin as [Heq|Hin].
  - simplify_eq. unfold same_future. by rewrite Nat.eqb_refl.
  - unfold same_future. destruct (Nat.eqb_spec (fid k') (fid k)) as [Heq|_]; [|by apply IH].
    exfalso. apply Hk. rewrite Heq. apply list_elem_of_fmap. exists k. split; [done|].
    apply list_elem_of_fmap. by exists (k, v).
Qed.

Lemma tasks_cons call base host hosts :
  tasks call base (host :: hosts) =
  (mkFuture base (call base host), host) :: tasks call (S base) hosts.
Proof.
  unfold tasks. rewrite imap_cons. rewrite Nat.add_0_r. f_equal.
  apply imap_ext. intros i h _. cbn. by rewrite Nat.add_succ_r.
Qed.

Lemma tasks_fid call base hosts :
  fid <$> (tasks call base hosts).*1 = seq base (length hosts).
Proof.
  revert base. induction hosts as [|h hosts IH]; intros base; [done|].
  rewrite tasks_cons. cbn. by rewrite IH.
Qed.

Lemma tasks_ext call1 call2 base hosts :
  (∀ n host, call1 n host = call2 n host) →
  tasks call1 base hosts = tasks call2 base hosts.
Proof. intros H. unfold tasks. apply imap_ext. intros i h _. cbn. by rewrite H. Qed.

(** ** Dispatch *)

Lemma submit_hosts_spec call hosts : ∀ ex futures,
  Forall (λ kv, (fid kv.1 < length ex)%nat) futures →
  submit_hosts call hosts ex futures =
  mkM (imap (λ i host, EvSubmit (length ex + i) host) hosts)
      (Return (ex ++ (tasks call (length ex) hosts).*1,
               futures ++ tasks call (length ex) hosts)).
Proof.
  induction hosts as [|host hosts IH]; intros ex futures Hf.
  - cbn. by rewrite !app_nil_r.
  - cbn [submit_hosts]. unfold submit. cbn.
    rewrite dict_set_fresh; last first.
    { eapply Forall_impl; [exact Hf|]. cbn. lia. }
    rewrite IH; last first.
    { rewrite length_app. cbn. apply Forall_app. split.
      - eapply Forall_impl; [exact Hf|]. cbn. lia.
      - repeat constructor. cbn. lia. }
    cbn. rewrite tasks_cons.
    rewrite length_app. cbn. rewrite Nat.add_1_r, Nat.add_0_r.
    f_equal.
    + f_equal. apply imap_ext. intros i h _. cbn. f_equal. lia.
    + by rewrite <- !app_assoc.
Qed.

Lemma submitted_spec call hosts : submitted call hosts = (tasks call 0 hosts).*1.
Proof.
  unfold submitted. by rewrite (submit_hosts_spec call hosts [] []) by constructor.
Qed.

(** ** The report loop *)

Lemma writelines_trace lines : writelines lines = mkM (EvWrite <$> lines) (Return tt).
Proof.
  induction lines as [|l lines IH]; [done|]. cbn [writelines]. rewrite IH. reflexivity.
Qed.

Lemma report_loop_spec futures rest :
  Forall (λ kv, dict_get futures kv.1 = Some kv.2) rest →
  report_loop futures rest.*1 = loop_outcome rest.
Proof.
  induction 1 as [|[fut host] rest Hg _ IH]; [done|].
  cbn [fmap list_fmap fst report_loop loop_outcome]. cbn in Hg.
  unfold future_result, dict_getitem. rewrite Hg, IH.
  destruct (result (work fut)) as [[|l ls]|e]; [| |done].
  - by destruct (loop_outcome rest) as [t []].
  - unfold mbind at 1. unfold M_bind at 1. cbn [result trace].
    rewrite writelines_trace. by destruct (loop_outcome rest) as [t []].
Qed.

Lemma loop_outcome_returns entries :
  Forall (λ kv, ∃ changes, result (work kv.1) = Return changes) entries →
  loop_outcome entries =
  mkM (concat ((λ kv, EvResult (fid kv.1) :: entry_events kv.2 (output kv.1)) <$> entries))
      (Return tt).
Proof.
  induction 1 as [|[fut host] entries [changes Hc] _ IH]; [done|].
  cbn in *. unfold output. rewrite Hc, IH. reflexivity.
Qed.

Lemma loop_outcome_quiet entries : Forall quiet (trace (loop_outcome entries)).
Proof.
  induction entries as [|[fut host] entries IH]; [constructor|]. cbn.
  destruct (result (work fut)) as [[|l ls]|e]; [by constructor| |by repeat constructor].
  cbn. do 3 (constructor; [done|]). rewrite <- app_assoc. apply Forall_app. split.
  - apply Forall_fmap, Forall_true. done.
  - by constructor.
Qed.

(** The pool operations of the loop: one [result()] per future, of a
    submitted future each. *)
Lemma loop_outcome_pool_ops entries :
  Forall (λ ev, ∃ k, ev = EvResult k ∧ k ∈ fid <$> entries.*1)
         (pool_ops (trace (loop_outcome entries))).
Proof.
  unfold pool_ops.
  induction entries as [|[fut host] entries IH]; [constructor|]. cbn [loop_outcome].
  assert (Forall (λ ev, ∃ k, ev = EvResult k ∧ k ∈ fid <$> ((fut, host) :: entries).*1)
            (filter (λ ev, is_pool_op ev = true) (trace (loop_outcome entries)))) as IH'.
  { eapply Forall_impl; [exact IH|]. intros ev (k & -> & Hk). exists k. split; [done|].
    cbn. by right. }
  destruct (result (work fut)) as [changes|e]; cbn [trace].
  - rewrite filter_cons_True by done. constructor.
    { exists (fid fut). split; [done|]. cbn. by left. }
    rewrite filter_app. apply Forall_app. split; [|done].
    rewrite Forall_filter_nil; [constructor|].
    destruct changes as [|l ls]; [constructor|]. cbn.
    do 2 (constructor; [done|]). apply Forall_app. split; [|by repeat constructor].
    by apply Forall_fmap, Forall_true.
  - rewrite filter_cons_True by done. rewrite filter_nil. repeat constructor.
    exists (fid fut). split; [done|]. cbn. by left.
Qed.

Lemma written_entry host changes :
  written (entry_events host changes) = entry_text host changes.
Proof.
  destruct changes as [|l ls]; [done|]. unfold entry_events, entry_text.
  change (written (EvWrite (header host) :: ?t)) with (header host +:+ written t).
  by rewrite written_app, written_writes.
Qed.

Lemma written_concat_entries entries :
  written (concat ((λ kv, EvResult (fid kv.1) :: entry_events kv.2 (output kv.1)) <$> entries)) =
  concat_str ((λ kv, entry_text kv.2 (output kv.1)) <$> entries).
Proof.
  induction entries as [|[fut host] entries IH]; [done|].
  cbn [fmap list_fmap concat].
  change (written ((EvResult ?k :: ?a) ++ ?b)) with (written (a ++ b)).
  rewrite written_app, written_entry, IH. reflexivity.
Qed.

(** ** write_report *)

Lemma write_report_spec call cmd hosts :
  write_report call cmd hosts =
  mkM (EvOpenAppend report_file :: EvWrite (echo cmd) :: EvExecutor max_workers ::
       imap EvSubmit hosts ++ trace (loop_outcome (tasks call 0 hosts)) ++
       [EvShutdown; EvFileClose])
      (result (loop_outcome (tasks call 0 hosts))).
Proof.
  unfold write_report. rewrite (submit_hosts_spec call hosts [] []) by constructor.
  cbn [length app].
  assert (report_loop (tasks call 0 hosts) (dict_keys (tasks call 0 hosts))
          = loop_outcome (tasks call 0 hosts)) as Hloop.
  { apply report_loop_spec. apply Forall_forall. intros [k v] Hin. cbn.
    apply dict_get_lookup; [|done]. rewrite tasks_fid. apply NoDup_seq. }
  rewrite bind_return, Hloop.
  destruct (loop_outcome (tasks call 0 hosts)) as [t r].
  unfold with_exit. cbn. rewrite <- !app_assoc. by destruct r.
Qed.

Lemma write_report_ext call1 call2 cmd hosts :
  (∀ n host, call1 n host = call2 n host) →
  write_report call1 cmd hosts = write_report call2 cmd hosts ∧
  submitted call1 hosts = submitted call2 hosts.
Proof.
  intros H. rewrite !write_report_spec, !submitted_spec.
  by rewrite (tasks_ext call1 call2 0 hosts H).
Qed.

Lemma tasks_returns call hosts (results : nat → list string) :
  (∀ i host, hosts !! i = Some host → result (call i host) = Return (results i)) →
  Forall (λ kv, ∃ changes, result (work kv.1) = Return changes) (tasks call 0 hosts) ∧
  (λ kv, entry_text kv.2 (output kv.1)) <$> tasks call 0 hosts =
  imap (λ i host, entry_text host (results i)) hosts.
Proof.
  intros Hr. split.
  - apply Forall_forall. intros kv Hin. unfold tasks in Hin.
    apply elem_of_lookup_imap_1 in Hin as (i & h & -> & Hi). cbn. eauto.
  - unfold tasks. rewrite fmap_imap. apply imap_ext. intros i h Hi. cbn.
    unfold output. cbn. by rewrite (Hr i h Hi).
Qed.

(** When every call returns, the loop runs to its end and the text written
    is the echo line followed by the entries, in the order of the hosts. *)
Lemma write_report_returns call cmd hosts (results : nat → list string) :
  (∀ i host, hosts !! i = Some host → result (call i host) = Return (results i)) →
  result (write_report call cmd hosts) = Return tt ∧
  written (trace (write_report call cmd hosts)) = report_text cmd hosts results.
Proof.
  intros Hr. destruct (tasks_returns call hosts results Hr) as [Hall Htext].
  rewrite write_report_spec. rewrite (loop_outcome_returns _ Hall).
  cbn [trace result]. split; [done|].
  change (written (EvOpenAppend report_file :: EvWrite (echo cmd) :: EvExecutor max_workers :: ?t))
    with (echo cmd +:+ written t).
  unfold report_text. f_equal. rewrite !written_app.
  rewrite written_concat_entries, Htext.
  change (written [EvShutdown; EvFileClose]) with EmptyString. rewrite append_empty_r.
  by rewrite written_imap.
Qed.

Lemma write_report_submits call cmd hosts :
  filter (λ ev, is_submit ev = true) (trace (write_report call cmd hosts)) =
  imap EvSubmit hosts.
Proof.
  rewrite write_report_spec. cbn [trace].
  rewrite !filter_cons_False by done.
  rewrite !filter_app.
  rewrite (Forall_filter_id _ (imap EvSubmit hosts)); last first.
  { apply Forall_forall. intros ev Hin.
    by apply elem_of_lookup_imap_1 in Hin as (i & h & -> & _). }
  rewrite (Forall_filter_nil _ (trace _)); last first.
  { eapply Forall_impl; [apply loop_outcome_quiet|]. intros ev (_ & _ & Hd).
    destruct ev; done. }
  by rewrite app_nil_r.
Qed.

(** ** The file system *)

Lemma replay_open_append p tr cur fs :
  replay (EvOpenAppend p :: tr) cur fs =
  replay tr (Some p) (<[p := default EmptyString (fs !! p)]> fs).
Proof. reflexivity. Qed.

Lemma replay_app_plain tr rest p : ∀ fs old,
  fs !! p = Some old →
  Forall (λ ev, is_file_ctl ev = false) tr →
  replay (tr ++ rest) (Some p) fs = replay rest (Some p) (<[p := old +:+ written tr]> fs).
Proof.
  induction tr as [|ev tr IH]; intros fs old Hp Hplain.
  - cbn. change (written []) with EmptyString. rewrite append_empty_r. by rewrite insert_id.
  - apply Forall_cons in Hplain as [Hev Htr].
    destruct ev; try done;
      try (cbn [replay app]; rewrite (IH fs old Hp Htr); reflexivity).
    cbn [replay app]. rewrite Hp. cbn [default].
    rewrite (IH _ (old +:+ text)); [|apply lookup_insert_eq|done].
    rewrite insert_insert_eq. do 2 f_equal.
    change (written (EvWrite text :: tr)) with (text +:+ written tr).
    apply app_string_assoc.
Qed.

Lemma replay_skip_prints pre tr fs :
  Forall (λ ev, ∃ line, ev = EvPrint line) pre →
  replay (pre ++ tr) None fs = replay tr None fs.
Proof. induction 1 as [|ev pre [line ->] _ IH]; [done|]. by cbn. Qed.

Lemma report_of_insert fs text : report_of (<[report_file := text]> fs) = text.
Proof. unfold report_of. by rewrite lookup_insert_eq. Qed.

(** What running [write_report] leaves in the file system: the report file
    with the text of the run added at its end, and nothing else changed. *)
Lemma write_report_files call cmd hosts fs :
  replay (trace (write_report call cmd hosts)) None fs =
  <[report_file := report_of fs +:+ written (trace (write_report call cmd hosts))]> fs.
Proof.
  rewrite write_report_spec. cbn [trace].
  set (body := EvWrite (echo cmd) :: EvExecutor max_workers ::
               imap EvSubmit hosts ++ trace (loop_outcome (tasks call 0 hosts)) ++ [EvShutdown]).
  assert (Forall (λ ev, is_file_ctl ev = false) body) as Hbody.
  { subst body. do 2 (constructor; [done|]). apply Forall_app. split.
    - apply Forall_forall. intros ev Hin.
      apply elem_of_lookup_imap_1 in Hin as (i & h & -> & _). done.
    - apply Forall_app. split; [|by repeat constructor].
      eapply Forall_impl; [apply loop_outcome_quiet|]. by intros ev (? & _). }
  replace (EvWrite (echo cmd) :: EvExecutor max_workers ::
           imap EvSubmit hosts ++ trace (loop_outcome (tasks call 0 hosts)) ++
           [EvShutdown; EvFileClose]) with (body ++ [EvFileClose]); last first.
  { subst body. cbn. by rewrite <- !app_assoc. }
  rewrite replay_open_append.
  rewrite (replay_app_plain body [EvFileClose] report_file _ (report_of fs));
    [|apply lookup_insert_eq|done].
  cbn [replay]. rewrite insert_insert_eq. f_equal. f_equal.
  change (written (EvOpenAppend report_file :: body ++ [EvFileClose]))
    with (written (body ++ [EvFileClose])).
  rewrite written_app. change (written [EvFileClose]) with EmptyString.
  by rewrite append_empty_r.
Qed.

(** ** main *)

Section MainFacts.
Variable json_load : string → exn + credentials_t.

Lemma load_inputs_no_inventory fs args :
  fs !! inventory_file args = None →
  load_inputs json_load fs args =
  mkM [EvPrint (missing_file_message (inventory_file args))] (Raise (SystemExit 1)).
Proof. intros H. unfold load_inputs, open_read. rewrite H. reflexivity. Qed.

Lemma load_inputs_no_credentials fs args text :
  fs !! inventory_file args = Some text →
  fs !! credentials_file args = None →
  load_inputs json_load fs args =
  mkM [EvPrint (missing_file_message (credentials_file args))] (Raise (SystemExit 1)).
Proof.
  intros H1 H2. unfold load_inputs, load_credentials, open_read. rewrite H1, H2.
  reflexivity.
Qed.

Lemma load_inputs_ok fs args text ctext credentials :
  fs !! inventory_file args = Some text →
  fs !! credentials_file args = Some ctext →
  json_load ctext = inr credentials →
  load_inputs json_load fs args = mkM [] (Return (strip <$> file_readlines text, credentials)).
Proof.
  intros H1 H2 H3. unfold load_inputs, load_credentials, open_read.
  rewrite H1, H2. cbn. rewrite H3. reflexivity.
Qed.

Lemma load_inputs_prints fs args :
  Forall (λ ev, ∃ line, ev = EvPrint line) (trace (load_inputs json_load fs args)).
Proof.
  unfold load_inputs, load_credentials, open_read.
  destruct (fs !! inventory_file args); [|repeat econstructor].
  destruct (fs !! credentials_file args) as [ctext|]; [|repeat econstructor].
  cbn. destruct (json_load ctext) as [e|c]; [|constructor].
  cbn. destruct (is_FileNotFoundError e); repeat econstructor.
Qed.

Lemma load_inputs_ext fs fs' args :
  fs' !! inventory_file args = fs !! inventory_file args →
  fs' !! credentials_file args = fs !! credentials_file args →
  load_inputs json_load fs' args = load_inputs json_load fs args.
Proof.
  intros H1 H2. unfold load_inputs, load_credentials, open_read. by rewrite H1, H2.
Qed.

Lemma main_unfold fs args net :
  main json_load fs args net =
  match result (load_inputs json_load fs args) with
  | Return (hosts, credentials) =>
      let w := write_report
                 (λ n host, send_command (net n) host credentials (command args))
                 (command args) hosts in
      mkM (trace (load_inputs json_load fs args) ++ trace w) (result w)
  | Raise e => mkM (trace (load_inputs json_load fs args)) (Raise e)
  end.
Proof.
  unfold main. unfold mbind at 1. unfold M_bind at 1.
  by destruct (result (load_inputs json_load fs args)) as [[hosts c]|e].
Qed.

Lemma main_ext fs fs' args net :
  fs' !! inventory_file args = fs !! inventory_file args →
  fs' !! credentials_file args = fs !! credentials_file args →
  main json_load fs' args net = main json_load fs args net.
Proof. intros H1 H2. rewrite !main_unfold. by rewrite (load_inputs_ext fs fs'). Qed.

(** The file system after a run: nothing but the report file changes, and
    it changes by what the run wrote. *)
Lemma run_main_files fs args net :
  files_after (run_main json_load fs args net) =
  match result (load_inputs json_load fs args) with
  | Return _ =>
      <[report_file := report_of fs +:+
                       written (main_thread (run_main json_load fs args net))]> fs
  | Raise _ => fs
  end.
Proof.
  unfold run_main. cbn [files_after main_thread]. rewrite main_unfold.
  pose proof (load_inputs_prints fs args) as Hp.
  destruct (result (load_inputs json_load fs args)) as [[hosts c]|e]; cbn [trace].
  - rewrite replay_skip_prints by done. rewrite write_report_files.
    rewrite written_app, (written_prints _ Hp). reflexivity.
  - rewrite <- (app_nil_r (trace _)). by rewrite replay_skip_prints.
Qed.

Lemma run_main_report fs args net :
  report_of (files_after (run_main json_load fs args net)) =
  report_of fs +:+ written (main_thread (run_main json_load fs args net)).
Proof.
  rewrite run_main_files. pose proof (load_inputs_prints fs args) as Hp.
  destruct (result (load_inputs json_load fs args)) as [x|e] eqn:E.
  - apply report_of_insert.
  - unfold run_main. cbn [main_thread]. rewrite main_unfold, E. cbn [trace].
    by rewrite (written_prints _ Hp), append_empty_r.
Qed.

Lemma run_main_other_files fs args net path :
  path ≠ report_file →
  files_after (run_main json_load fs args net) !! path = fs !! path.
Proof.
  intros Hne. rewrite run_main_files.
  destruct (result (load_inputs json_load fs args)); [|done].
  by rewrite lookup_insert_ne.
Qed.

Lemma run_main_net_ext fs args net1 net2 :
  (∀ n host credentials cmd,
     send_command (net1 n) host credentials cmd =
     send_command (net2 n) host credentials cmd) →
  run_main json_load fs args net1 = run_main json_load fs args net2.
Proof.
  intros H. unfold run_main, main_tasks. rewrite !main_unfold.
  destruct (result (load_inputs json_load fs args)) as [[hosts c]|e]; [|done].
  cbn zeta.
  destruct (write_report_ext
              (λ n host, send_command (net1 n) host c (command args))
              (λ n host, send_command (net2 n) host c (command args))
              (command args) hosts) as [-> ->]; [|done].
  intros n host. apply H.
Qed.
End MainFacts.

(** ** The layout of the report in lines *)

Lemma entry_text_unlines host lines :
  entry_text host ((λ l, l +:+ nl) <$> lines) = unlines (entry_lines host lines).
Proof.
  destruct lines as [|l ls]; [done|]. unfold entry_text, entry_lines. cbn [fmap list_fmap].
  rewrite unlines_cons. unfold header. rewrite !app_string_assoc. do 3 f_equal.
  change (l :: ls ++ [EmptyString]) with ((l :: ls) ++ [EmptyString]).
  rewrite unlines_app. reflexivity.
Qed.

Lemma report_text_unlines cmd hosts lines :
  report_text cmd hosts (λ i, (λ l, l +:+ nl) <$> lines i) =
  unlines (report_lines cmd hosts lines).
Proof.
  unfold report_text, report_lines. rewrite unlines_cons. unfold echo.
  rewrite !app_string_assoc. do 3 f_equal.
  rewrite unlines_concat, fmap_imap. f_equal. apply imap_ext. intros i h _. cbn.
  apply entry_text_unlines.
Qed.

Lemma report_lines_no_newline cmd hosts lines :
  has_newline cmd = false →
  Forall (λ host, has_newline host = false) hosts →
  (∀ i, Forall (λ l, has_newline l = false) (lines i)) →
  Forall (λ l, has_newline l = false) (report_lines cmd hosts lines).
Proof.
  intros Hc Hh Hl. constructor; [by rewrite has_newline_app, Hc|].
  apply Forall_concat. apply Forall_forall. intros ls Hin.
  apply elem_of_lookup_imap_1 in Hin as (i & h & -> & Hi).
  unfold entry_lines. destruct (lines i) as [|l ls'] eqn:E; [constructor|].
  constructor.
  - rewrite !has_newline_app. rewrite Forall_forall in Hh.
    rewrite (Hh h) by (by eapply list_elem_of_lookup_2). reflexivity.
  - apply Forall_app. split; [|by repeat constructor]. rewrite <- E. apply Hl.
Qed.

(** ** Further facts about the inputs *)

(** *** Characters and white space *)

Lemma decode_char_app a w cp r :
  decode_char a = Some (cp, r) → decode_char (a +:+ w) = Some (cp, r +:+ w).
Proof.
  destruct a as [|c1 [|c2 [|c3 [|c4 a]]]]; rewrite ?append_cons; cbn [decode_char];
    repeat (case_match; try done); intros [= <- <-]; done.
Qed.

Lemma decode_char_shorter s cp r :
  decode_char s = Some (cp, r) → (String.length r < String.length s)%nat.
Proof.
  destruct s as [|c1 [|c2 [|c3 [|c4 s]]]]; cbn [decode_char];
    repeat (case_match; try done); intros [= <- <-]; cbn; lia.
Qed.

Lemma decode_char_lead c r cp r' :
  decode_char (String c r) = Some (cp, r') → continuation c = false.
Proof.
  unfold continuation. destruct r as [|c2 [|c3 [|c4 s]]]; cbn [decode_char];
    repeat (case_match; try done); intros _; lia.
Qed.

(** A text that does not start with a character does not start with one
    either when bytes are added that could not continue a character. *)
Lemma decode_char_stuck a w :
  a ≠ EmptyString → decode_char a = None →
  match w with EmptyString => True | String d _ => continuation d = false end →
  decode_char (a +:+ w) = None.
Proof.
  intros Ha Hd Hw.
  destruct a as [|c1 [|c2 [|c3 [|c4 a]]]]; [done|..]; rewrite ?append_cons;
    destruct w as [|d w]; rewrite ?append_empty_r, ?append_empty_l; try done;
    cbn [decode_char] in *; try rewrite Hw; cbn [negb];
    repeat (case_match; try done).
Qed.

Lemma lstrip_from_enough n : ∀ s,
  (String.length s ≤ n)%nat → lstrip_from n s = lstrip s.
Proof.
  unfold lstrip. induction n as [n IH] using lt_wf_ind. intros s Hn.
  destruct n as [|n].
  - destruct s; [done|]. cbn in Hn. lia.
  - destruct s as [|c s]; [done|]. cbn [String.length lstrip_from].
    destruct (decode_char (String c s)) as [[cp r]|] eqn:Hd; [|done].
    destruct (isspace cp); [|done].
    apply decode_char_shorter in Hd. cbn in Hd, Hn.
    rewrite (IH n) by lia. symmetry. rewrite (IH (String.length s)) by lia.
    done.
Qed.

(** The scan never runs out of steps: [lstrip] obeys the equation of the
    loop. *)
Lemma lstrip_unfold s :
  lstrip s = match decode_char s with
             | Some (cp, rest) => if isspace cp then lstrip rest else s
             | None => s
             end.
Proof.
  destruct s as [|c s]; [done|]. unfold lstrip at 1. cbn [String.length lstrip_from].
  destruct (decode_char (String c s)) as [[cp r]|] eqn:Hd; [|done].
  destruct (isspace cp); [|done].
  apply lstrip_from_enough. apply decode_char_shorter in Hd. cbn in Hd. lia.
Qed.

Lemma decode_char_prefix s cp r :
  decode_char s = Some (cp, r) → ∃ p, s = p +:+ r.
Proof.
  destruct s as [|c1 [|c2 [|c3 [|c4 s]]]]; cbn [decode_char];
    repeat (case_match; try done); intros [= <- <-].
  all: first [ by exists (String c1 EmptyString)
             | by exists (String c1 (String c2 EmptyString))
             | by exists (String c1 (String c2 (String c3 EmptyString)))
             | by exists (String c1 (String c2 (String c3 (String c4 EmptyString)))) ].
Qed.

(** What [lstrip] leaves is an end of the text. *)
Lemma lstrip_suffix s : ∃ p, s = p +:+ lstrip s.
Proof.
  remember (String.length s) as n eqn:Hn. revert s Hn.
  induction n as [n IH] using lt_wf_ind. intros s ->.
  rewrite lstrip_unfold.
  destruct (decode_char s) as [[cp r]|] eqn:Hd; [|by exists EmptyString].
  destruct (isspace cp); [|by exists EmptyString].
  destruct (decode_char_prefix _ _ _ Hd) as [p ->].
  apply decode_char_shorter in Hd.
  destruct (IH _ Hd r eq_refl) as [q Hq].
  exists (p +:+ q). rewrite app_string_assoc. by rewrite <- Hq.
Qed.

Lemma blank_empty : blank EmptyString = true.
Proof. done. Qed.

Lemma blank_first w :
  blank w = true →
  match w with EmptyString => True | String d _ => continuation d = false end.
Proof.
  destruct w as [|d w]; [done|]. unfold blank. rewrite lstrip_unfold.
  destruct (decode_char (String d w)) as [[cp r]|] eqn:Hd; [|done].
  intros _. by apply decode_char_lead in Hd.
Qed.

(** White space added at the end of a text is either all that the scan
    from the left leaves untouched, or disappears with the text when the
    text is blank itself. *)
Lemma lstrip_app_blank w : blank w = true → ∀ a,
  lstrip (a +:+ w) = if blank a then EmptyString else lstrip a +:+ w.
Proof.
  intros Hw a. remember (String.length a) as n eqn:Hn. revert a Hn.
  induction n as [n IH] using lt_wf_ind. intros a ->.
  destruct a as [|c a].
  { rewrite append_empty_l. cbn. unfold blank in Hw. by destruct (lstrip w). }
  unfold blank. rewrite (lstrip_unfold (String c a)), (lstrip_unfold (String c a +:+ w)).
  destruct (decode_char (String c a)) as [[cp r]|] eqn:Hd.
  - rewrite (decode_char_app _ w _ _ Hd). destruct (isspace cp); [|done].
    apply decode_char_shorter in Hd. apply (IH _ Hd r eq_refl).
  - rewrite decode_char_stuck; [done|done|done|by apply blank_first].
Qed.

Lemma blank_app a w : blank w = true → blank (a +:+ w) = blank a.
Proof.
  intros Hw. unfold blank at 1. rewrite (lstrip_app_blank w Hw).
  destruct (blank a) eqn:Ha; [done|].
  unfold blank in Ha. destruct (lstrip a); [done|]. by rewrite append_cons.
Qed.

Lemma rstrip_blank w : blank w = true → rstrip w = EmptyString.
Proof. destruct w; [done|]. cbn [rstrip]. by intros ->. Qed.

Lemma rstrip_app_blank w : blank w = true → ∀ a, rstrip (a +:+ w) = rstrip a.
Proof.
  intros Hw. induction a as [|c a IH].
  - rewrite append_empty_l. by apply rstrip_blank.
  - rewrite append_cons. cbn [rstrip]. rewrite <- append_cons, (blank_app _ _ Hw), IH.
    done.
Qed.

(** What [rstrip] cuts off is white space. *)
Lemma rstrip_split s : ∃ w, s = rstrip s +:+ w ∧ blank w = true.
Proof.
  induction s as [|c s (w & Hs & Hw)]; [by exists EmptyString|].
  cbn [rstrip]. destruct (blank (String c s)) eqn:Hb.
  - by exists (String c s).
  - exists w. by rewrite append_cons, <- Hs.
Qed.

Lemma rstrip_idem s : rstrip (rstrip s) = rstrip s.
Proof.
  destruct (rstrip_split s) as (w & Hs & Hw).
  rewrite Hs at 2. by rewrite rstrip_app_blank.
Qed.

Lemma lstrip_idem s : lstrip (lstrip s) = lstrip s.
Proof.
  remember (String.length s) as n eqn:Hn. revert s Hn.
  induction n as [n IH] using lt_wf_ind. intros s ->.
  rewrite (lstrip_unfold s).
  destruct (decode_char s) as [[cp r]|] eqn:Hd.
  - destruct (isspace cp) eqn:Hsp.
    + apply decode_char_shorter in Hd. apply (IH _ Hd r eq_refl).
    + by rewrite lstrip_unfold, Hd, Hsp.
  - by rewrite lstrip_unfold, Hd.
Qed.

(** Cutting white space off the end of a text that starts with none leaves
    a text that starts with none. *)
Lemma lstrip_rstrip s : lstrip s = s → lstrip (rstrip s) = rstrip s.
Proof.
  intros Hs. destruct (rstrip_split s) as (w & Hsw & Hw).
  rewrite Hsw in Hs. rewrite (lstrip_app_blank w Hw) in Hs.
  destruct (blank (rstrip s)) eqn:Hb.
  - symmetry in Hs. destruct (rstrip s); [done|]. by rewrite append_cons in Hs.
  - generalize dependent (rstrip s). intros u _ Hs _.
    destruct (lstrip_suffix u) as [p Hp].
    assert (String.length (lstrip u) = String.length u) as Hlen.
    { apply (f_equal String.length) in Hs. rewrite !length_append in Hs. lia. }
    rewrite Hp in Hlen at 2. rewrite length_append in Hlen.
    destruct p; [by rewrite append_empty_l in Hp|]. cbn in Hlen. lia.
Qed.

(** Stripping a second time changes nothing. *)
Lemma strip_idem s : strip (strip s) = strip s.
Proof.
  unfold strip. rewrite (lstrip_rstrip (lstrip s)) by apply lstrip_idem.
  apply rstrip_idem.
Qed.

(** White space after a text does not show in what [strip] keeps of it. *)
Lemma strip_app_blank a w : blank w = true → strip (a +:+ w) = strip a.
Proof.
  intros Hw. unfold strip. rewrite (lstrip_app_blank w Hw).
  destruct (blank a) eqn:Ha.
  - unfold blank in Ha. by destruct (lstrip a).
  - by apply rstrip_app_blank.
Qed.

Lemma strip_no_newline s : has_newline s = false → has_newline (strip s) = false.
Proof.
  intros Hs. unfold strip.
  destruct (lstrip_suffix s) as [p Hp]. destruct (rstrip_split (lstrip s)) as (w & Hl & _).
  rewrite Hp, Hl, !has_newline_app in Hs.
  by destruct (has_newline (rstrip (lstrip s))); [rewrite orb_true_r in Hs|].
Qed.

Lemma readlines_from_shape s : ∀ cur,
  has_newline cur = false →
  Forall (λ l, ∃ body, has_newline body = false ∧ (l = body ∨ l = body +:+ nl))
         (readlines_from cur s).
Proof.
  induction s as [|c s IH]; intros cur Hcur.
  - cbn. destruct cur; [constructor|]. repeat constructor. eexists. eauto.
  - cbn. destruct (Ascii.eqb c LF) eqn:Hc.
    + constructor; [eexists; eauto|]. by apply IH.
    + apply IH. rewrite has_newline_app, Hcur. cbn. by rewrite Hc.
Qed.

(** The three line endings, and white space beyond ASCII around a name and
    inside one. *)
Lemma inventory_reading_examples :
  file_readlines ("a" +:+ String CR "b" +:+ String CR nl +:+ "c" +:+ nl +:+ "d") =
    ["a" +:+ nl; "b" +:+ nl; "c" +:+ nl; "d"] ∧
  decode_char no_break_space = Some (160, EmptyString) ∧
  decode_char ideographic_space = Some (12288, EmptyString) ∧
  strip ("esxi-01" +:+ no_break_space +:+ nl) = "esxi-01" ∧
  strip (ideographic_space +:+ " esxi-01" +:+ String CR EmptyString) = "esxi-01" ∧
  strip (" a" +:+ no_break_space +:+ "b ") = "a" +:+ no_break_space +:+ "b" ∧
  strip (a_grave +:+ "x" +:+ a_grave +:+ no_break_space) = a_grave +:+ "x" +:+ a_grave.
Proof. split_and!; reflexivity. Qed.

(** No host read from an inventory file contains a newline. *)
Lemma inventory_hosts_single_line text :
  Forall (λ host, has_newline host = false) (strip <$> file_readlines text).
Proof.
  apply Forall_fmap. unfold file_readlines.
  eapply Forall_impl;
    [by apply (readlines_from_shape (universal_newlines text) EmptyString)|].
  intros l (body & Hb & [->| ->]); cbn.
  - by apply strip_no_newline.
  - rewrite strip_app_blank by done. by apply strip_no_newline.
Qed.

(** A host name that cannot be resolved makes [connect_ex] raise rather
    than return: the exception passes through [send_command], which has no
    handler around the port check, and ends the loop over the futures. *)
Lemma probe_exception_propagates net host creds cmd e :
  connect_ex_result net host 22 = inl e →
  send_command net host creds cmd = mkM [EvSocket; EvConnectEx host 22] (Raise e).
Proof.
  intros H. apply send_command_probe_raises. by rewrite check_port_result, H.
Qed.

(** ** The report (C1) *)

(** C1, as amended: when every line a call returns is one line of text
    ending in a newline (and neither the command nor a host name contains
    a newline), the lines that [write_report] adds to the report file are
    exactly: the line echoing the command, then, for each host in the order
    of the host list whose call returned at least one line, the header line
    naming the host, the returned lines, and one empty line.  Hosts whose
    call returned nothing leave no trace in the text. *)
Theorem report_layout call cmd hosts (lines : nat → list string) :
  has_newline cmd = false →
  Forall (λ host, has_newline host = false) hosts →
  (∀ i, Forall (λ l, has_newline l = false) (lines i)) →
  (∀ i host, hosts !! i = Some host →
             result (call i host) = Return ((λ l, l +:+ nl) <$> lines i)) →
  text_lines (written (trace (write_report call cmd hosts))) =
  report_lines cmd hosts lines.
Proof.
  intros Hc Hh Hl Hr.
  destruct (write_report_returns call cmd hosts _ Hr) as [_ ->].
  rewrite report_text_unlines. apply text_lines_unlines.
  by apply report_lines_no_newline.
Qed.

(** The example of the specification, every line terminated. *)
Lemma report_layout_witness :
  text_lines (written (trace (write_report
    (λ n host, send_command (sample_network_terminated n) host sample_credentials
                            "net-stats -l")
    "net-stats -l" ["A"; "B"; "C"]))) =
  ["Command run: net-stats -l";
   "Output from A:"; "x"; EmptyString;
   "Output from C:"; "y"; "z"; EmptyString].
Proof.
  apply (report_layout
           (λ n host, send_command (sample_network_terminated n) host
                                   sample_credentials "net-stats -l")
           "net-stats -l" ["A"; "B"; "C"] sample_lines).
  - reflexivity.
  - repeat constructor.
  - intros [|[|i]]; repeat constructor.
  - intros [|[|[|i]]] host Hi; vm_compute in Hi; try discriminate; reflexivity.
Defined.

(** C1, as stated, fails on the specification's own example when host A's
    single line [x] arrives without a final newline: the newline written
    after A's output then only ends that line, and no empty line separates
    A's entry from C's header. *)
Lemma report_blank_line_missing :
  let call := λ n host, send_command (sample_network n) host sample_credentials
                                     "net-stats -l" in
  let hosts := ["A"; "B"; "C"] in
  (result (call 0%nat "A") = Return ["x"] ∧
   result (call 1%nat "B") = Return [] ∧
   result (call 2%nat "C") = Return ["y" +:+ nl; "z" +:+ nl]) ∧
  text_lines (written (trace (write_report call "net-stats -l" hosts))) =
    ["Command run: net-stats -l";
     "Output from A:"; "x";
     "Output from C:"; "y"; "z"; EmptyString] ∧
  text_lines (written (trace (write_report call "net-stats -l" hosts))) ≠
    report_lines "net-stats -l" hosts sample_lines.
Proof.
  cbn zeta. split_and!; [reflexivity..|]. vm_compute. discriminate.
Qed.

(** ** A failing port check (C2) *)

(** Where the port check fails by answering false, [send_command] returns
    the empty list, prints exactly one diagnostic, which names the host,
    and performs no SSH operation at all. *)
Lemma closed_port_skips_handshake net host creds cmd :
  result (check_port net host 22) = Return false →
  let m := send_command net host creds cmd in
  result m = Return [] ∧
  diagnostics (trace m) = [port_closed_message host] ∧
  names_host (port_closed_message host) host ∧
  Forall (λ ev, is_handshake ev = false) (trace m).
Proof.
  intros H m. subst m. rewrite (send_command_closed _ _ _ _ H). cbn.
  split_and!; [done|done|apply port_closed_names_host|].
  repeat constructor.
Qed.

(** C2 fails on a host whose name cannot be resolved.  There the port
    check fails by raising: [connect_ex] raises [socket.gaierror] instead of
    returning an error indicator.  The call of [check_port] stands before
    the [try] of [send_command], so the exception leaves [send_command]:
    no diagnostic is printed and no empty list is returned.  No SSH
    operation is attempted.  In a run the exception comes out of
    [future.result()] in [main], which ends there with status 1, the hosts
    listed after this one left out of the report. *)
Theorem unresolvable_host_escapes_send_command :
  let e := socket_gaierror "[Errno -2] Name or service not known" in
  let m := send_command host_unresolvable "esxi-07" sample_credentials "net-stats -l" in
  result (check_port host_unresolvable "esxi-07" 22) = Raise e ∧
  result m = Raise e ∧
  diagnostics (trace m) = [] ∧
  Forall (λ ev, is_handshake ev = false) (trace m) ∧
  let r := run_main sample_json_load sample_files sample_arguments
                    sample_network_unresolvable in
  status r = 1 ∧
  report_of (files_after r) =
    "Command run: net-stats -l" +:+ nl +:+ "Output from A:" +:+ nl +:+ "x" +:+ nl +:+ nl.
Proof.
  cbn zeta. split_and!; [reflexivity..| |reflexivity|reflexivity].
  repeat constructor.
Qed.

(** ** Failures of one host (C3) *)

(** C3, as amended: whenever the port check of a host returns, every
    failure met on that host stays with that host.
    - A connection attempt that [connect_ex] reports as failed, a timeout
      like a refusal, prints the closed-port diagnostic, and the call
      returns the empty list.
    - Once the port is found open, an exception derived from [Exception]
      that the SSH session raises (credential lookup, connection,
      [exec_command], reading the output) is absorbed: the call returns the
      empty list after printing one diagnostic, the timeout diagnostic for
      a [socket.timeout], which differs from the closed-port diagnostic,
      and otherwise the diagnostic that ends with the text of the
      exception.
    - A command that runs and fails on the host raises nothing: the call
      prints no diagnostic and returns what the command wrote on standard
      output.
    - In none of these cases does the call raise an exception derived from
      [Exception]. *)
Theorem host_failures_stay_local net host creds cmd errno :
  connect_ex_result net host 22 = inr errno →
  let m := send_command net host creds cmd in
  (errno ≠ 0 →
     result m = Return [] ∧ diagnostics (trace m) = [port_closed_message host]) ∧
  (errno = 0 → ∀ e,
     result (ssh_session net host creds cmd) = Raise e → is_Exception e = true →
     result m = Return [] ∧
     diagnostics (trace m) =
       [if is_socket_timeout e then timeout_message host else failure_message host e] ∧
     timeout_message host ≠ port_closed_message host ∧
     ∃ pre, failure_message host e = pre +:+ str e) ∧
  (errno = 0 → ∀ u p chan,
     creds !! "username" = Some u → creds !! "password" = Some p →
     connect_result net host u p = None →
     exec_command_result net host cmd = inr chan →
     stdout_failure chan = None →
     result m = Return (readlines (stdout_text chan)) ∧ diagnostics (trace m) = []) ∧
  (∀ e, result m = Raise e → is_Exception e = false).
Proof.
  intros Hc m. subst m.
  pose proof (check_port_result net host 22) as Hp. rewrite Hc in Hp.
  pose proof (ssh_session_cases net host creds cmd) as (Hd & _). cbn zeta in Hd.
  split_and!.
  - intros Hne. apply Z.eqb_neq in Hne. rewrite Hne in Hp.
    by rewrite (send_command_closed _ _ _ _ Hp).
  - intros -> e Hs He. rewrite (send_command_open _ _ _ _ Hp). cbn zeta.
    rewrite Hs. unfold send_command_handler. rewrite He.
    destruct (is_socket_timeout e); cbn [result trace];
      rewrite !diagnostics_app, Hd;
      (split_and!; [done|done|apply timeout_not_port_closed|by eexists]).
  - intros -> u p chan Hu Hpw Hcon Hex Hout.
    by rewrite (send_command_success _ _ _ _ u p chan Hc Hu Hpw Hcon Hex Hout).
  - intros e. destruct (errno =? 0) eqn:E.
    + rewrite (send_command_open _ _ _ _ Hp). cbn zeta.
      destruct (result (ssh_session net host creds cmd)) as [out|e']; [done|].
      cbn [result]. unfold send_command_handler.
      destruct (is_socket_timeout e'); [done|].
      destruct (is_Exception e') eqn:He'; [done|]. by intros [= <-].
    + by rewrite (send_command_closed _ _ _ _ Hp).
Qed.

Lemma host_failures_stay_local_witness :
  (let m := send_command host_refusing "esxi-07" sample_credentials "net-stats -l" in
   result m = Return [] ∧
   diagnostics (trace m) = [port_closed_message "esxi-07"]) ∧
  (let m := send_command host_timing_out "esxi-07" sample_credentials "net-stats -l" in
   result m = Return [] ∧
   diagnostics (trace m) = [timeout_message "esxi-07"]) ∧
  (let m := send_command host_rejecting "esxi-07" sample_credentials "net-stats -l" in
   result m = Return [] ∧
   diagnostics (trace m) =
     [failure_message "esxi-07" (AuthenticationException "Authentication failed.")]).
Proof.
  split_and!.
  - destruct (host_failures_stay_local host_refusing "esxi-07" sample_credentials
                "net-stats -l" 111) as (Hclosed & _); [reflexivity|].
    apply Hclosed. lia.
  - destruct (host_failures_stay_local host_timing_out "esxi-07" sample_credentials
                "net-stats -l" 0) as (_ & Hraise & _); [reflexivity|].
    destruct (Hraise eq_refl (socket_timeout "timed out")) as (Hr & Hd & _);
      [reflexivity..|].
    split; [exact Hr|exact Hd].
  - destruct (host_failures_stay_local host_rejecting "esxi-07" sample_credentials
                "net-stats -l" 0) as (_ & Hraise & _); [reflexivity|].
    destruct (Hraise eq_refl (AuthenticationException "Authentication failed."))
      as (Hr & Hd & _); [reflexivity..|].
    split; [exact Hr|exact Hd].
Defined.

(** C3, as stated, fails on two hosts.  On a host that never answers, the
    connection attempt of the port check times out, and the diagnostic
    printed is the closed-port one, the very line a refusing host gets.  On
    a host where the command fails, the call prints no diagnostic at all:
    the error text is on standard error, which is never read. *)
Lemma failures_without_their_diagnostic :
  (let m := send_command host_unreachable "esxi-07" sample_credentials "net-stats -l" in
   connect_ex_result host_unreachable "esxi-07" 22 = inr 110 ∧
   result m = Return [] ∧
   diagnostics (trace m) = [port_closed_message "esxi-07"] ∧
   diagnostics (trace m) =
     diagnostics (trace (send_command host_refusing "esxi-07" sample_credentials
                                      "net-stats -l"))) ∧
  (let m := send_command host_failing_command "esxi-07" sample_credentials
                         "net-stats -l" in
   exec_command_result host_failing_command "esxi-07" "net-stats -l" =
     inr (mkChannel EmptyString ("sh: net-stats: not found" +:+ nl) None) ∧
   result m = Return [] ∧
   diagnostics (trace m) = []).
Proof. cbn zeta. split_and!; reflexivity. Qed.

(** ** check_port (C6) *)

(** C6, as amended: [check_port] creates one socket and makes one
    connection attempt on it, and does nothing else; in particular it does
    not close the socket.  Whenever [connect_ex] returns an error
    indicator, [check_port] returns whether that indicator is 0. *)
Theorem check_port_connects_once net host port :
  trace (check_port net host port) = [EvSocket; EvConnectEx host port] ∧
  ∀ errno, connect_ex_result net host port = inr errno →
           result (check_port net host port) = Return (errno =? 0).
Proof.
  split; [apply check_port_trace|]. intros errno H.
  by rewrite check_port_result, H.
Qed.

Lemma check_port_connects_once_witness :
  trace (check_port host_refusing "esxi-07" 22) = [EvSocket; EvConnectEx "esxi-07" 22] ∧
  result (check_port host_refusing "esxi-07" 22) = Return false ∧
  result (check_port (host_printing "x") "esxi-07" 22) = Return true.
Proof.
  destruct (check_port_connects_once host_refusing "esxi-07" 22) as [Ht Hr].
  destruct (check_port_connects_once (host_printing "x") "esxi-07" 22) as [_ Hr'].
  split_and!.
  - exact Ht.
  - apply (Hr 111). reflexivity.
  - apply (Hr' 0). reflexivity.
Defined.

(** C6, as stated, fails: the connection [check_port] opened to a
    listening host is not closed by it. *)
Lemma check_port_leaves_socket_open :
  result (check_port (host_printing "x") "esxi-07" 22) = Return true ∧
  ¬ closes_socket (trace (check_port (host_printing "x") "esxi-07" 22)).
Proof.
  split; [reflexivity|]. unfold closes_socket. cbn.
  intros H. repeat (apply elem_of_cons in H as [H|H]; [discriminate|]).
  by apply elem_of_nil in H.
Qed.

(** ** Missing input files (C4) *)

(** C4: when the inventory file or the credentials file does not exist, the
    process exits with status 1; all the main thread has done is print one
    line naming a missing file; no call was submitted, no network operation
    was performed, and the file system is as it was. *)
Theorem missing_file_stops_before_dispatch json_load fs args net :
  fs !! inventory_file args = None ∨ fs !! credentials_file args = None →
  let r := run_main json_load fs args net in
  status r = 1 ∧
  status r ≠ 0 ∧
  workers r = [] ∧
  files_after r = fs ∧
  (∃ file_name, main_thread r = [EvPrint (missing_file_message file_name)]) ∧
  Forall (λ ev, is_network ev = false ∧ is_dispatch ev = false) (main_thread r).
Proof.
  intros Hmiss.
  assert (∃ file_name, load_inputs json_load fs args =
            mkM [EvPrint (missing_file_message file_name)] (Raise (SystemExit 1)))
    as [file_name Hload].
  { destruct (fs !! inventory_file args) as [text|] eqn:Hinv.
    - destruct Hmiss as [|Hc]; [done|]. eexists.
      by apply (load_inputs_no_credentials _ _ _ text).
    - eexists. by apply load_inputs_no_inventory. }
  cbn zeta. rewrite run_main_files. unfold run_main, main_tasks.
  cbn [status workers main_thread]. rewrite main_unfold, Hload.
  cbn. split_and!; [done|done|done|done|by eexists|by repeat constructor].
Qed.

Lemma missing_file_stops_before_dispatch_witness :
  let r := run_main sample_json_load (delete "credentials.json" sample_files)
                    sample_arguments sample_network in
  status r = 1 ∧
  status r ≠ 0 ∧
  workers r = [] ∧
  files_after r = delete "credentials.json" sample_files ∧
  (∃ file_name, main_thread r = [EvPrint (missing_file_message file_name)]) ∧
  Forall (λ ev, is_network ev = false ∧ is_dispatch ev = false) (main_thread r).
Proof.
  apply (missing_file_stops_before_dispatch sample_json_load
           (delete "credentials.json" sample_files) sample_arguments sample_network).
  right. reflexivity.
Defined.

(** ** Duplicate hosts (C5) *)

(** C5: one call is submitted for every entry of the host list, duplicates
    included: the [i]-th entry gets the [i]-th future, and the dictionary
    keeps them all apart.  When the calls return, the report has an entry
    for the [i]-th occurrence exactly when the [i]-th call returned output,
    whatever the other occurrences of the same host did. *)
Theorem every_occurrence_is_dispatched call cmd hosts (results : nat → list string) :
  (∀ i host, hosts !! i = Some host → result (call i host) = Return (results i)) →
  submitted call hosts = imap (λ i host, mkFuture i (call i host)) hosts ∧
  filter (λ ev, is_submit ev = true) (trace (write_report call cmd hosts)) =
    imap EvSubmit hosts ∧
  written (trace (write_report call cmd hosts)) =
    echo cmd +:+ concat_str (imap (λ i host, entry_text host (results i)) hosts).
Proof.
  intros Hr. split_and!.
  - rewrite submitted_spec. unfold tasks. rewrite fmap_imap. reflexivity.
  - apply write_report_submits.
  - by destruct (write_report_returns call cmd hosts results Hr) as [_ ->].
Qed.

(** The same host twice: two calls; the first answers and is reported, the
    second finds the port closed and is left out. *)
Lemma every_occurrence_is_dispatched_witness :
  let call := λ n host, send_command (sample_flapping n) host sample_credentials
                                     "net-stats -l" in
  submitted call sample_duplicates =
    [mkFuture 0 (call 0%nat "esxi-01"); mkFuture 1 (call 1%nat "esxi-01")] ∧
  filter (λ ev, is_submit ev = true)
         (trace (write_report call "net-stats -l" sample_duplicates)) =
    [EvSubmit 0 "esxi-01"; EvSubmit 1 "esxi-01"] ∧
  written (trace (write_report call "net-stats -l" sample_duplicates)) =
    echo "net-stats -l" +:+
    concat_str [entry_text "esxi-01" ["vmnic0" +:+ nl]; entry_text "esxi-01" []].
Proof.
  apply (every_occurrence_is_dispatched
           (λ n host, send_command (sample_flapping n) host sample_credentials
                                   "net-stats -l")
           "net-stats -l" sample_duplicates sample_flapping_results).
  intros [|[|i]] host Hi; vm_compute in Hi; try discriminate; reflexivity.
Defined.

(** ** Appending to the report (C7) *)

(** C7: a run leaves the previous text of the report file in place and
    adds its own text behind it; a second run with the same inputs adds the
    same text once more.  The inventory and the credentials are read from
    files other than the report file, so that both runs see the same hosts. *)
Theorem report_is_append_only json_load fs args net :
  inventory_file args ≠ report_file →
  credentials_file args ≠ report_file →
  let first := run_main json_load fs args net in
  let second := run_main json_load (files_after first) args net in
  let one_run := written (main_thread first) in
  report_of (files_after first) = report_of fs +:+ one_run ∧
  report_of (files_after second) = (report_of fs +:+ one_run) +:+ one_run ∧
  String.length (report_of (files_after second)) =
    (String.length (report_of (files_after first)) + String.length one_run)%nat.
Proof.
  intros Hi Hc. cbn zeta.
  assert (report_of (files_after (run_main json_load
            (files_after (run_main json_load fs args net)) args net)) =
          (report_of fs +:+ written (main_thread (run_main json_load fs args net))) +:+
          written (main_thread (run_main json_load fs args net))) as H2.
  { rewrite run_main_report. rewrite run_main_report. f_equal.
    unfold run_main at 1. cbn [main_thread].
    rewrite (main_ext json_load fs); [done| |]; by apply run_main_other_files. }
  split_and!; [apply run_main_report|exact H2|].
  rewrite H2, run_main_report. apply length_append.
Qed.

Lemma report_is_append_only_witness :
  let fs := <[report_file := "Command run: uptime" +:+ nl]> sample_files in
  let first := run_main sample_json_load fs sample_arguments sample_network_terminated in
  let second := run_main sample_json_load (files_after first) sample_arguments
                         sample_network_terminated in
  let one_run := written (main_thread first) in
  report_of (files_after first) = report_of fs +:+ one_run ∧
  report_of (files_after second) = (report_of fs +:+ one_run) +:+ one_run ∧
  String.length (report_of (files_after second)) =
    (String.length (report_of (files_after first)) + String.length one_run)%nat.
Proof.
  apply (report_is_append_only sample_json_load
           (<[report_file := "Command run: uptime" +:+ nl]> sample_files)
           sample_arguments sample_network_terminated).
  - vm_compute. discriminate.
  - vm_compute. discriminate.
Defined.

(** ** Standard error (C9) *)

Lemma with_stderr_same err net : same_but_stderr net (with_stderr err net).
Proof.
  split_and!; [done|done|]. intros host cmd. cbn.
  destruct (exec_command_result net host cmd); done.
Qed.

(** C9: [send_command] never reads the command's standard error: for two
    networks that differ only in what commands write there, every call does
    the same operations and returns the same value, and so does the whole
    run, report file included.  When the call succeeds, the value is the
    lines of the command's standard output. *)
Theorem stderr_never_reaches_the_result json_load fs args net1 net2 :
  (∀ n, same_but_stderr (net1 n) (net2 n)) →
  (∀ n host credentials cmd,
     send_command (net1 n) host credentials cmd =
       send_command (net2 n) host credentials cmd ∧
     existsb reads_stderr (trace (send_command (net1 n) host credentials cmd)) = false ∧
     ∀ u p chan,
       connect_ex_result (net1 n) host 22 = inr 0 →
       credentials !! "username" = Some u → credentials !! "password" = Some p →
       connect_result (net1 n) host u p = None →
       exec_command_result (net1 n) host cmd = inr chan →
       stdout_failure chan = None →
       result (send_command (net1 n) host credentials cmd) =
         Return (readlines (stdout_text chan))) ∧
  run_main json_load fs args net1 = run_main json_load fs args net2.
Proof.
  intros H. split.
  - intros n host c cmd. split_and!.
    + by apply send_command_same_but_stderr.
    + apply send_command_no_stderr.
    + intros. by erewrite send_command_success.
  - apply run_main_net_ext. intros n host c cmd. by apply send_command_same_but_stderr.
Qed.

Lemma stderr_never_reaches_the_result_witness :
  run_main sample_json_load sample_files sample_arguments sample_network =
  run_main sample_json_load sample_files sample_arguments
           (λ n, with_stderr "net-stats: error" (sample_network n)) ∧
  result (send_command (sample_network 2) "C" sample_credentials "net-stats -l") =
    Return ["y" +:+ nl; "z" +:+ nl].
Proof.
  destruct (stderr_never_reaches_the_result sample_json_load sample_files
              sample_arguments sample_network
              (λ n, with_stderr "net-stats: error" (sample_network n)))
    as [Hcall Hrun].
  - intros n. split_and!; [reflexivity|reflexivity|].
    intros host cmd. destruct n as [|[|n]]; vm_compute; split; reflexivity.
  - split; [exact Hrun|].
    destruct (Hcall 2%nat "C" sample_credentials "net-stats -l") as (_ & _ & Hok).
    apply (Hok "root" "vmware"
             (mkChannel ("y" +:+ nl +:+ "z" +:+ nl) "warning: deprecated" None));
      reflexivity.
Defined.

(** ** Credentials without a key (C10) *)

(** C10: when the credentials lack [username] or [password], every call
    whose port check passes catches the [KeyError] like any other failure
    of the session: it never calls [connect], prints the generic diagnostic
    naming its host, and returns the empty list.  The run goes on: as long
    as no port check itself raises, one call is made per host, the process
    exits with status 0, and the report gains the echo line only. *)
Theorem missing_key_does_not_abort json_load fs args net text ctext credentials :
  fs !! inventory_file args = Some text →
  fs !! credentials_file args = Some ctext →
  json_load ctext = inr credentials →
  lacks_key credentials →
  (∀ n host, ∃ open, result (check_port (net n) host 22) = Return open) →
  let r := run_main json_load fs args net in
  let e := KeyError (first_missing_key credentials) in
  (∀ n host,
     result (check_port (net n) host 22) = Return true →
     let m := send_command (net n) host credentials (command args) in
     result m = Return [] ∧
     diagnostics (trace m) = [failure_message host e] ∧
     names_host (failure_message host e) host ∧
     existsb is_connect (trace m) = false) ∧
  status r = 0 ∧
  length (workers r) = length (file_readlines text) ∧
  report_of (files_after r) = report_of fs +:+ echo (command args).
Proof.
  intros Hi Hc Hj Hk Hp r e.
  split; [intros n host Ho; by apply missing_key_per_host|].
  assert (∀ (i : nat) (host : string),
            result (send_command (net i) host credentials (command args)) = Return [])
    as Hr.
  { intros i host. destruct (Hp i host) as [[] Ho].
    - by destruct (missing_key_per_host (net i) host credentials (command args) Hk Ho)
        as [? _].
    - by rewrite (send_command_closed _ _ _ _ Ho). }
  pose proof (load_inputs_ok json_load fs args text ctext credentials Hi Hc Hj) as Hload.
  destruct (write_report_returns
              (λ n host, send_command (net n) host credentials (command args))
              (command args) (strip <$> file_readlines text) (λ _, []))
    as [Hres Hw]; [by intros; apply Hr|].
  subst r. split_and!.
  - unfold run_main. cbn [status]. rewrite main_unfold, Hload. cbn [result].
    cbn zeta. by rewrite Hres.
  - unfold run_main, main_tasks. cbn [workers]. rewrite Hload. cbn [result].
    rewrite submitted_spec, !length_fmap. unfold tasks.
    by rewrite length_imap, length_fmap.
  - rewrite run_main_report. f_equal. unfold run_main. cbn [main_thread].
    rewrite main_unfold, Hload. cbn [result trace app]. cbn zeta. rewrite Hw.
    unfold report_text.
    assert (concat_str (imap (λ _ host, entry_text host []) (strip <$> file_readlines text))
            = EmptyString) as ->; [|apply append_empty_r].
    generalize (strip <$> file_readlines text). intros l.
    change (λ (_ : nat) (host : string), entry_text host [])
      with (λ (_ : nat) (_ : string), EmptyString).
    induction l as [|h l IH]; [done|]. rewrite imap_cons. exact IH.
Qed.

Lemma missing_key_does_not_abort_witness :
  let fs := <["credentials.json" := "{}"]> sample_files in
  let r := run_main sample_json_load fs sample_arguments sample_network in
  status r = 0 ∧
  length (workers r) = 3%nat ∧
  report_of (files_after r) = echo "net-stats -l" ∧
  diagnostics (trace (send_command (sample_network 0) "A" ∅ "net-stats -l")) =
    [failure_message "A" (KeyError "username")].
Proof.
  destruct (missing_key_does_not_abort sample_json_load
              (<["credentials.json" := "{}"]> sample_files) sample_arguments
              sample_network ("A" +:+ nl +:+ "B" +:+ nl +:+ "C" +:+ nl) "{}" ∅)
    as (Hhost & Hs & Hw & Hrep).
  - reflexivity.
  - reflexivity.
  - reflexivity.
  - left. reflexivity.
  - intros [|[|n]] host; eexists; reflexivity.
  - split_and!; [exact Hs|exact Hw|exact Hrep|].
    destruct (Hhost 0%nat "A") as (_ & Hd & _); [reflexivity|exact Hd].
Defined.

(** ** The pool (C8) *)

Section PoolFacts.
Import Pool.
Local Open Scope nat_scope.

Lemma step_measure s s' : step s s' → measure s' < measure s.
Proof.
  destruct 1; unfold measure; cbn; rewrite ?length_app; cbn; lia.
Qed.

Lemma write_report_pool_ops call cmd hosts :
  ∃ rs, results_below (length hosts) rs ∧
        pool_ops (trace (write_report call cmd hosts)) =
        EvExecutor max_workers :: imap EvSubmit hosts ++ rs ++ [EvShutdown].
Proof.
  exists (pool_ops (trace (loop_outcome (tasks call 0 hosts)))). split.
  - eapply Forall_impl; [apply loop_outcome_pool_ops|].
    intros ev (k & -> & Hk). exists k. split; [done|].
    rewrite tasks_fid in Hk. apply elem_of_seq in Hk. lia.
  - rewrite write_report_spec. unfold pool_ops. cbn [trace].
    rewrite !filter_cons_False by done. rewrite filter_cons_True by done.
    rewrite !filter_app. f_equal. f_equal.
    apply Forall_filter_id, Forall_forall. intros ev Hin.
    by apply elem_of_lookup_imap_1 in Hin as (i & h & -> & _).
Qed.

Lemma pool_inv_init call cmd hosts :
  pool_inv (length hosts) (init (pool_ops (trace (write_report call cmd hosts)))).
Proof.
  destruct (write_report_pool_ops call cmd hosts) as (rs & Hrs & ->).
  by constructor.
Qed.

Lemma perm_start k (q r f : list nat) : q ++ (k :: r) ++ f ≡ₚ (k :: q) ++ r ++ f.
Proof. cbn. symmetry. apply Permutation_middle. Qed.

Lemma perm_finish k (q r1 r2 f : list nat) :
  q ++ (r1 ++ r2) ++ k :: f ≡ₚ q ++ (r1 ++ k :: r2) ++ f.
Proof.
  rewrite <- !app_assoc. do 2 f_equiv. cbn. symmetry. apply Permutation_middle.
Qed.

Lemma perm_submit j (q r f : list nat) : (q ++ [j]) ++ r ++ f ≡ₚ (q ++ r ++ f) ++ [j].
Proof.
  rewrite <- !app_assoc. f_equiv. rewrite (app_assoc r f [j]).
  apply Permutation_app_comm.
Qed.

Lemma imap_submit_cons j h hosts :
  imap (λ i host, EvSubmit (j + i) host) (h :: hosts) =
  EvSubmit j h :: imap (λ i host, EvSubmit (S j + i) host) hosts.
Proof.
  rewrite imap_cons, Nat.add_0_r. f_equal. apply imap_ext. intros i x _. cbn.
  f_equal. lia.
Qed.

(** The pool operation the main thread does next. *)
Lemma pool_program_head j hosts rs n :
  results_below n rs →
  (∃ h hosts', hosts = h :: hosts' ∧
     imap (λ i host, EvSubmit (j + i) host) hosts ++ rs ++ [EvShutdown] =
     EvSubmit j h :: imap (λ i host, EvSubmit (S j + i) host) hosts' ++ rs ++ [EvShutdown]) ∨
  (∃ k rs', hosts = [] ∧ rs = EvResult k :: rs' ∧ k < n ∧ results_below n rs' ∧
     imap (λ i host, EvSubmit (j + i) host) hosts ++ rs ++ [EvShutdown] =
     EvResult k :: rs' ++ [EvShutdown]) ∨
  (hosts = [] ∧ rs = [] ∧
     imap (λ i host, EvSubmit (j + i) host) hosts ++ rs ++ [EvShutdown] = [EvShutdown]).
Proof.
  intros Hrs. destruct hosts as [|h hosts].
  - destruct Hrs as [|ev rs (k & -> & Hk) Hrs].
    + by right; right.
    + right; left. by exists k, rs.
  - left. exists h, hosts. split; [done|]. by rewrite imap_submit_cons.
Qed.

Ltac pool_head :=
  match goal with
  | Hrs : results_below _ ?rs,
    Ht : imap (λ i host, EvSubmit (?j + i) host) ?hosts ++ ?rs ++ [EvShutdown] = _ |- _ =>
      let E := fresh "E" in
      destruct (pool_program_head j hosts rs _ Hrs)
        as [(? & ? & -> & E)|[(? & ? & -> & -> & ? & ? & E)|(-> & -> & E)]];
      rewrite E in Ht; simplify_eq
  end.

Lemma pool_inv_step n s s' : pool_inv n s → step s s' → pool_inv n s'.
Proof.
  intros Hinv Hstep.
  inversion Hstep as [m rest c q r f|k host rest c q r f|k rest c q r f Hk
                     |rest c f|k t c q r f Hlt|k t c q r1 r2 f]; subst.
  - (* the executor is created *)
    inversion Hinv; subst; [|pool_head].
    match goal with H : results_below _ _ |- _ =>
      by apply (pool_inv_pool _ 0 hosts rs [] [] []); [done|exact H|done|cbn; lia] end.
  - (* a call is submitted *)
    inversion Hinv; subst. pool_head.
    match goal with Hp : _ ≡ₚ seq 0 ?j |- pool_inv _ {| todo := imap _ ?hs ++ ?rs ++ _ |} =>
      apply (pool_inv_pool _ (S j) hs rs (q ++ [j]) r f);
        [cbn; lia|done| |done];
      rewrite seq_S; cbn; rewrite <- Hp; apply perm_submit end.
  - (* a result is handed over *)
    inversion Hinv; subst. pool_head.
    match goal with Hp : _ ≡ₚ seq 0 ?j |- pool_inv _ {| todo := ?rs ++ _ |} =>
      by apply (pool_inv_pool _ j [] rs q r f) end.
  - (* the with block is left *)
    inversion Hinv; subst. pool_head.
    match goal with Hp : _ ≡ₚ seq 0 ?j |- _ =>
      apply pool_inv_end; cbn; rewrite Nat.add_0_r; by rewrite <- Hp end.
  - (* a worker takes a call *)
    inversion Hinv; subst.
    match goal with Hp : _ ≡ₚ seq 0 ?j, Hr : results_below _ ?rs
                    |- pool_inv _ {| todo := imap _ ?hs ++ _ |} =>
      apply (pool_inv_pool _ j hs rs q (k :: r) f); [done|done| |cbn; lia];
      rewrite <- Hp; apply perm_start end.
  - (* a call finishes *)
    inversion Hinv; subst; [by destruct r1| |by destruct r1].
    match goal with Hp : _ ≡ₚ seq 0 ?j, Hr : results_below _ ?rs
                    |- pool_inv _ {| todo := imap _ ?hs ++ _ |} =>
      apply (pool_inv_pool _ j hs rs q (r1 ++ r2) (k :: f)); [done|done| |];
      [rewrite <- Hp; apply perm_finish|rewrite length_app in *; cbn in *; lia] end.
Qed.

Lemma pool_inv_reachable call cmd hosts s :
  reachable (pool_ops (trace (write_report call cmd hosts))) s →
  pool_inv (length hosts) s.
Proof.
  unfold reachable. intros H.
  eapply (rtc_ind_r (R := step) (pool_inv (length hosts))); [|clear s H|exact H].
  - apply pool_inv_init.
  - intros s1 s2 _ Hstep Hinv. by eapply pool_inv_step.
Qed.

Lemma pool_inv_safe n s :
  pool_inv n s →
  length (running s) ≤ max_workers ∧
  NoDup (queue s ++ running s ++ finished s) ∧
  (∀ k, k ∈ queue s ++ running s ++ finished s → k < n) ∧
  (ended s → queue s = [] ∧ running s = [] ∧ finished s ≡ₚ seq 0 n).
Proof.
  destruct 1 as [hosts rs Hn Hrs|j hosts rs q r f Hn Hrs Hperm Hlen|f Hf]; cbn.
  - split_and!; [lia|constructor|by intros k Hk; apply elem_of_nil in Hk|done].
  - split_and!; [done| | |].
    + rewrite Hperm. apply NoDup_seq.
    + intros k Hk. rewrite Hperm in Hk. apply elem_of_seq in Hk. lia.
    + unfold ended. cbn. intros Ht.
      destruct (pool_program_head j hosts rs _ Hrs)
        as [(h & hs & -> & E)|[(k' & rs' & -> & -> & _ & Hrs' & E)|(-> & -> & E)]];
        rewrite E in Ht; discriminate.
  - split_and!; [lia| | |done].
    + rewrite Hf. apply NoDup_seq.
    + intros k Hk. rewrite Hf in Hk. apply elem_of_seq in Hk. lia.
Qed.

Lemma pool_inv_progress n s : pool_inv n s → ¬ ended s → ∃ s', step s s'.
Proof.
  destruct 1 as [hosts rs Hn Hrs|j hosts rs q r f Hn Hrs Hperm Hlen|f Hf]; intros Hne.
  - eexists. constructor.
  - destruct r as [|k0 r].
    + destruct q as [|k0 q].
      * destruct (pool_program_head j hosts rs _ Hrs)
          as [(h & hs & -> & E)|[(k & rs' & -> & -> & Hk & Hrs' & E)|(-> & -> & E)]];
          rewrite E.
        -- eexists. constructor.
        -- eexists. constructor. cbn in Hperm. rewrite Hperm. apply elem_of_seq.
           cbn in Hn. lia.
        -- eexists. constructor.
      * eexists. apply step_start. cbn. unfold max_workers. lia.
    + eexists. apply (step_finish k0 _ _ _ [] r).
  - by destruct Hne.
Qed.

(** Every run comes to its end: steps remain possible until then, and no
    run is longer than the measure of its first state. *)
Lemma pool_inv_ends n s : pool_inv n s → ∃ s', rtc step s s' ∧ ended s'.
Proof.
  remember (measure s) as m eqn:Hm. revert s Hm.
  induction m as [m IH] using lt_wf_ind. intros s -> Hinv.
  destruct (decide (todo s = [])) as [He|Hne].
  - exists s. split; [apply rtc_refl|done].
  - destruct (pool_inv_progress n s Hinv Hne) as [s1 Hstep].
    destruct (IH (measure s1) (step_measure _ _ Hstep) s1 eq_refl
                 (pool_inv_step _ _ _ Hinv Hstep)) as (s' & Hrtc & Hend).
    exists s'. split; [by eapply rtc_l|done].
Qed.
End PoolFacts.

(** C8: in every state a run over the host list can be in, at most 10
    calls are being executed; every submitted call is in exactly one of the
    queue, the workers' hands and the finished calls, and there is one call
    per host and no other; the main thread is past the [with] block only
    when no call is queued or running and all of them, one per host, have
    finished.  Until then some step is always possible, and every step
    lowers the measure, so every run reaches its end. *)
Theorem pool_runs_every_call_under_the_cap call cmd hosts s :
  Pool.reachable (pool_ops (trace (write_report call cmd hosts))) s →
  (length (Pool.running s) ≤ 10)%nat ∧
  NoDup (Pool.queue s ++ Pool.running s ++ Pool.finished s) ∧
  (∀ k, k ∈ Pool.queue s ++ Pool.running s ++ Pool.finished s → (k < length hosts)%nat) ∧
  (Pool.ended s →
     Pool.queue s = [] ∧ Pool.running s = [] ∧
     Pool.finished s ≡ₚ seq 0 (length hosts)) ∧
  (¬ Pool.ended s → ∃ s', Pool.step s s') ∧
  (∀ s', Pool.step s s' → (Pool.measure s' < Pool.measure s)%nat) ∧
  (∃ s', rtc Pool.step s s' ∧ Pool.ended s').
Proof.
  intros Hreach. apply pool_inv_reachable in Hreach.
  destruct (pool_inv_safe _ _ Hreach) as (Hcap & Hnd & Hlt & Hend).
  split_and!; [exact Hcap|exact Hnd|exact Hlt|exact Hend| | |].
  - apply (pool_inv_progress _ _ Hreach).
  - intros s'. apply step_measure.
  - apply (pool_inv_ends _ _ Hreach).
Qed.

(** Twelve hosts: when ten calls are running, the last two wait in the
    queue, and no worker may take them before a call finishes. *)
Lemma pool_runs_every_call_under_the_cap_witness :
  let s := Pool.mkState
             ((EvResult <$> seq 0 12) ++ [EvShutdown]) 10
             [10; 11]%nat [9; 8; 7; 6; 5; 4; 3; 2; 1; 0]%nat [] in
  (length (Pool.running s) ≤ 10)%nat ∧
  (Pool.ended s →
     Pool.queue s = [] ∧ Pool.running s = [] ∧ Pool.finished s ≡ₚ seq 0 12) ∧
  (∃ s', rtc Pool.step s s' ∧ Pool.ended s').
Proof.
  destruct (pool_runs_every_call_under_the_cap
              (λ n host, send_command (host_printing ("vmnic0" +:+ nl)) host
                                      sample_credentials "net-stats -l")
              "net-stats -l" sample_rack
              (Pool.mkState ((EvResult <$> seq 0 12) ++ [EvShutdown]) 10
                            [10; 11]%nat [9; 8; 7; 6; 5; 4; 3; 2; 1; 0]%nat []))
    as (Hcap & _ & _ & Hend & _ & _ & Hex).
  - unfold Pool.reachable. vm_compute.
    eapply rtc_l; [apply Pool.step_executor|].
    do 12 (eapply rtc_l; [apply Pool.step_submit|]). cbn [app].
    do 10 (eapply rtc_l; [apply Pool.step_start; cbn; lia|]).
    apply rtc_refl.
  - cbn zeta. split_and!; [exact Hcap|exact Hend|exact Hex].
Defined.

(** * Further properties *)

(** ** Reading lines and writing them back *)

Lemma readlines_from_concat s : ∀ cur,
  concat_str (readlines_from cur s) = cur +:+ s.
Proof.
  induction s as [|c s IH]; intros cur.
  - cbn. destruct cur; [done|]. cbn. by rewrite !append_empty_r.
  - cbn [readlines_from]. destruct (Ascii.eqb c LF) eqn:Hc.
    + apply Ascii.eqb_eq in Hc as ->.
      change (concat_str (?x :: ?l)) with (x +:+ concat_str l).
      rewrite IH, append_empty_l. by rewrite app_string_assoc.
    + rewrite IH. by rewrite app_string_assoc.
Qed.

(** [readlines] loses nothing: the lines put end to end are the text. *)
Lemma readlines_concat s : concat_str (readlines s) = s.
Proof. unfold readlines. by rewrite readlines_from_concat. Qed.

Lemma readlines_nil s : readlines s = [] ↔ s = EmptyString.
Proof.
  split; [|by intros ->]. intros H.
  by rewrite <- (readlines_concat s), H.
Qed.

Lemma entry_text_readlines host out :
  entry_text host (readlines out) = entry_of_stdout host out.
Proof.
  unfold entry_text, entry_of_stdout.
  destruct (readlines out) as [|l ls] eqn:E.
  - apply readlines_nil in E as ->. done.
  - rewrite <- E, readlines_concat. destruct out; [done|done].
Qed.

Lemma prints_returns net host creds cmd out :
  prints net host creds cmd out →
  result (send_command net host creds cmd) = Return (readlines out) ∧
  diagnostics (trace (send_command net host creds cmd)) = [].
Proof.
  intros (Hc & u & p & chan & Hu & Hp & Hconn & He & Hf & <-).
  by rewrite (send_command_success net host creds cmd u p chan).
Qed.

(** X1: when every call goes through, what a run adds to the report is the
    echo line followed, host by host in the order of the list, by the
    header, the command's standard output exactly as the host sent it, and
    one newline; a host whose command printed nothing adds nothing.
    Nothing is lost or changed between [readlines] and [writelines]. *)
Theorem report_holds_stdout_verbatim net creds cmd hosts (outs : nat → string) :
  (∀ i host, hosts !! i = Some host → prints (net i) host creds cmd (outs i)) →
  let w := write_report (λ n host, send_command (net n) host creds cmd) cmd hosts in
  result w = Return tt ∧
  written (trace w) =
    echo cmd +:+ concat_str (imap (λ i host, entry_of_stdout host (outs i)) hosts).
Proof.
  intros Hp w.
  destruct (write_report_returns (λ n host, send_command (net n) host creds cmd)
              cmd hosts (λ i, readlines (outs i))) as [Hr Hw].
  { intros i host Hi. by destruct (prints_returns _ _ _ _ _ (Hp i host Hi)). }
  split; [exact Hr|]. subst w. rewrite Hw. unfold report_text. do 2 f_equal.
  apply imap_ext. intros i host _. apply entry_text_readlines.
Qed.

Lemma report_holds_stdout_verbatim_witness :
  written (trace (write_report
    (λ n host, send_command (host_printing "vmnic0  up") host sample_credentials
                            "net-stats -l")
    "net-stats -l" ["esxi-01"])) =
  "Command run: net-stats -l" +:+ nl +:+
  "Output from esxi-01:" +:+ nl +:+ "vmnic0  up" +:+ nl.
Proof.
  destruct (report_holds_stdout_verbatim (λ _, host_printing "vmnic0  up")
              sample_credentials "net-stats -l" ["esxi-01"] (λ _, "vmnic0  up"))
    as [_ Hw].
  - intros i host Hi. split; [reflexivity|].
    exists "root", "vmware", (mkChannel "vmnic0  up" "warning: deprecated" None).
    split_and!; reflexivity.
  - exact Hw.
Defined.

(** ** The inventory *)

Lemma universal_newlines_nil s :
  universal_newlines s = EmptyString ↔ s = EmptyString.
Proof.
  split; [|by intros ->]. destruct s as [|c s]; [done|]. cbn.
  destruct (Ascii.eqb c CR); [|done]. destruct s as [|c' s]; [done|].
  by destruct (Ascii.eqb c' LF).
Qed.

Lemma file_readlines_nil text : file_readlines text = [] ↔ text = EmptyString.
Proof. unfold file_readlines. by rewrite readlines_nil, universal_newlines_nil. Qed.

Lemma main_thread_loaded json_load fs args net hosts creds :
  load_inputs json_load fs args = mkM [] (Return (hosts, creds)) →
  main json_load fs args net =
  write_report (λ n host, send_command (net n) host creds (command args))
               (command args) hosts ∧
  main_tasks json_load fs args net =
  submitted (λ n host, send_command (net n) host creds (command args)) hosts.
Proof.
  intros H. unfold main_tasks. rewrite main_unfold, H. cbn.
  by destruct (write_report (λ n host, send_command (net n) host creds (command args))
                            (command args) hosts).
Qed.

(** One call per line of the inventory file. *)
Lemma workers_per_line json_load fs args net text ctext creds :
  fs !! inventory_file args = Some text →
  fs !! credentials_file args = Some ctext →
  json_load ctext = inr creds →
  length (workers (run_main json_load fs args net)) = length (file_readlines text).
Proof.
  intros Hi Hc Hj.
  pose proof (load_inputs_ok json_load fs args text ctext creds Hi Hc Hj) as Hload.
  destruct (main_thread_loaded json_load fs args net _ _ Hload) as [_ Ht].
  unfold run_main. cbn [workers]. rewrite Ht.
  rewrite submitted_spec, !length_fmap. unfold tasks.
  by rewrite length_imap, length_fmap.
Qed.

(** X2: every line of the inventory file becomes one host, in order, with
    the white space around it removed: one call is submitted per line, a
    blank line included (its host is the empty string).  A line ends at a
    line feed, at a carriage return or at the two together; white space is
    what [str.isspace] says of the characters of the text, the no-break
    space and the other Unicode spaces included.  No host keeps leading or
    trailing white space or contains a newline. *)
Theorem inventory_lines_become_hosts json_load fs args net text ctext creds :
  fs !! inventory_file args = Some text →
  fs !! credentials_file args = Some ctext →
  json_load ctext = inr creds →
  let r := run_main json_load fs args net in
  let hosts := strip <$> file_readlines text in
  filter (λ ev, is_submit ev = true) (main_thread r) = imap EvSubmit hosts ∧
  length (workers r) = length (file_readlines text) ∧
  Forall (λ host, strip host = host ∧ has_newline host = false) hosts.
Proof.
  intros Hi Hc Hj r hosts.
  pose proof (load_inputs_ok json_load fs args text ctext creds Hi Hc Hj) as Hload.
  destruct (main_thread_loaded json_load fs args net _ _ Hload) as [Hm Ht].
  split_and!.
  - subst r. unfold run_main. cbn [main_thread]. rewrite Hm. apply write_report_submits.
  - by apply (workers_per_line json_load fs args net text ctext creds).
  - subst hosts. pose proof (inventory_hosts_single_line text) as Hn.
    apply Forall_fmap. apply Forall_fmap in Hn.
    eapply Forall_impl; [exact Hn|]. cbn. intros l Hl. split; [apply strip_idem|done].
Qed.

Lemma inventory_lines_become_hosts_witness :
  let fs := <["inventory.txt" := sample_untidy_inventory]> sample_files in
  let r := run_main sample_json_load fs sample_arguments sample_network in
  filter (λ ev, is_submit ev = true) (main_thread r) =
    [EvSubmit 0 "esxi-01"; EvSubmit 1 EmptyString; EvSubmit 2 "esxi-02";
     EvSubmit 3 "esxi-03"] ∧
  length (workers r) = 4%nat.
Proof.
  destruct (inventory_lines_become_hosts sample_json_load
              (<["inventory.txt" := sample_untidy_inventory]> sample_files)
              sample_arguments sample_network sample_untidy_inventory "{...}"
              sample_credentials) as (Hs & Hw & _); [reflexivity..|].
  split; [exact Hs|exact Hw].
Defined.

(** X9: no call is submitted exactly when the inventory file is empty, and
    then the run still succeeds and still adds the echo line to the
    report. *)
Theorem empty_inventory_writes_echo_only json_load fs args net text ctext creds :
  fs !! inventory_file args = Some text →
  fs !! credentials_file args = Some ctext →
  json_load ctext = inr creds →
  let r := run_main json_load fs args net in
  (workers r = [] ↔ text = EmptyString) ∧
  (text = EmptyString →
     status r = 0 ∧
     main_thread r = [EvOpenAppend report_file; EvWrite (echo (command args));
                      EvExecutor max_workers; EvShutdown; EvFileClose] ∧
     report_of (files_after r) = report_of fs +:+ echo (command args)).
Proof.
  intros Hi Hc Hj r.
  pose proof (workers_per_line json_load fs args net text ctext creds Hi Hc Hj) as Hlen.
  fold r in Hlen.
  split.
  - rewrite <- file_readlines_nil. split.
    + intros Hw. rewrite Hw in Hlen. by destruct (file_readlines text).
    + intros Hr. rewrite Hr in Hlen. by destruct (workers r).
  - intros ->.
    pose proof (load_inputs_ok json_load fs args EmptyString ctext creds Hi Hc Hj)
      as Hload.
    destruct (main_thread_loaded json_load fs args net _ _ Hload) as [Hm _].
    assert (main_thread r =
            [EvOpenAppend report_file; EvWrite (echo (command args));
             EvExecutor max_workers; EvShutdown; EvFileClose]) as Hmt.
    { subst r. unfold run_main. cbn [main_thread]. by rewrite Hm. }
    split_and!; [|exact Hmt|].
    + subst r. unfold run_main. cbn [status]. by rewrite Hm.
    + subst r. rewrite run_main_report. fold (run_main json_load fs args net).
      rewrite Hmt. f_equal. apply append_empty_r.
Qed.

Lemma empty_inventory_writes_echo_only_witness :
  let fs := <["inventory.txt" := EmptyString]> sample_files in
  let r := run_main sample_json_load fs sample_arguments sample_network in
  workers r = [] ∧ status r = 0 ∧
  report_of (files_after r) = "Command run: net-stats -l" +:+ nl.
Proof.
  destruct (empty_inventory_writes_echo_only sample_json_load
              (<["inventory.txt" := EmptyString]> sample_files)
              sample_arguments sample_network EmptyString "{...}" sample_credentials)
    as (Hw & He); [reflexivity..|].
  destruct (He eq_refl) as (Hs & _ & Hr).
  split_and!; [by apply Hw|exact Hs|exact Hr].
Defined.

(** X7: a credentials file that exists but that [json.load] rejects is not
    handled: the exception leaves [main] as it is, with no message printed,
    before the report file is opened and before any call is submitted.  The
    process ends with status 1 when the exception derives from [Exception]. *)
Theorem unparsable_credentials_propagate json_load fs args net text ctext e :
  fs !! inventory_file args = Some text →
  fs !! credentials_file args = Some ctext →
  json_load ctext = inl e →
  is_FileNotFoundError e = false →
  let r := run_main json_load fs args net in
  result (main json_load fs args net) = Raise e ∧
  (is_Exception e = true → status r = 1) ∧
  main_thread r = [] ∧
  workers r = [] ∧
  files_after r = fs.
Proof.
  intros Hi Hc Hj He r.
  assert (load_inputs json_load fs args = mkM [] (Raise e)) as Hload.
  { unfold load_inputs, load_credentials, open_read. rewrite Hi, Hc. cbn.
    rewrite Hj. cbn. by rewrite He. }
  subst r. rewrite run_main_files. unfold run_main, main_tasks.
  cbn [status main_thread workers]. rewrite main_unfold, Hload. cbn.
  split_and!; try done. by destruct e.
Qed.

Lemma unparsable_credentials_propagate_witness :
  let fs := <["credentials.json" := "username=root"]> sample_files in
  let r := run_main sample_json_load fs sample_arguments sample_network in
  status r = 1 ∧ main_thread r = [] ∧ workers r = [] ∧ files_after r = fs.
Proof.
  destruct (unparsable_credentials_propagate sample_json_load
              (<["credentials.json" := "username=root"]> sample_files)
              sample_arguments sample_network
              ("A" +:+ nl +:+ "B" +:+ nl +:+ "C" +:+ nl) "username=root"
              (JSONDecodeError "Expecting value: line 1 column 1 (char 0)"))
    as (_ & Hs & Hm & Hw & Hf); [reflexivity..|].
  split_and!; [by apply Hs|exact Hm|exact Hw|exact Hf].
Defined.

(** X8: a run changes no file but the report file, whatever happens during
    the run; and once the inventory and the credentials have been loaded,
    the report file exists afterwards, holding its previous text followed
    by what the run wrote. *)
Theorem run_changes_only_the_report json_load fs args net path :
  path ≠ report_file →
  let r := run_main json_load fs args net in
  files_after r !! path = fs !! path ∧
  ∀ loaded, result (load_inputs json_load fs args) = Return loaded →
            files_after r !! report_file =
              Some (report_of fs +:+ written (main_thread r)).
Proof.
  intros Hne r. split.
  - subst r. rewrite run_main_files.
    destruct (result (load_inputs json_load fs args)); [|done].
    by rewrite lookup_insert_ne.
  - intros loaded Hl. subst r. rewrite run_main_files, Hl.
    by rewrite lookup_insert_eq.
Qed.

Lemma run_changes_only_the_report_witness :
  let r := run_main sample_json_load sample_files sample_arguments
                    sample_network_terminated in
  files_after r !! "inventory.txt" = sample_files !! "inventory.txt" ∧
  sample_files !! report_file = None ∧
  files_after r !! report_file = Some (written (main_thread r)).
Proof.
  destruct (run_changes_only_the_report sample_json_load sample_files sample_arguments
              sample_network_terminated "inventory.txt") as [Hf Hr].
  - vm_compute. discriminate.
  - split_and!; [exact Hf|reflexivity|].
    apply (Hr (["A"; "B"; "C"], sample_credentials)). reflexivity.
Defined.

(** ** A call that raises *)

Lemma tasks_app call base l1 l2 :
  tasks call base (l1 ++ l2) =
  tasks call base l1 ++ tasks call (base + length l1) l2.
Proof.
  unfold tasks. rewrite imap_app. f_equal. apply imap_ext. intros i h _. cbn.
  by rewrite Nat.add_assoc.
Qed.

Lemma loop_outcome_aborts l1 fut host l2 e :
  Forall (λ kv, ∃ changes, result (work kv.1) = Return changes) l1 →
  result (work fut) = Raise e →
  loop_outcome (l1 ++ (fut, host) :: l2) =
  mkM (concat ((λ kv, EvResult (fid kv.1) :: entry_events kv.2 (output kv.1)) <$> l1) ++
       [EvResult (fid fut)])
      (Raise e).
Proof.
  intros Hl He. induction Hl as [|[f h] l1 [changes Hc] _ IH].
  - cbn. by rewrite He.
  - cbn in Hc. cbn [app loop_outcome]. rewrite Hc, IH. cbn. unfold output. cbn.
    rewrite Hc. by rewrite <- app_assoc.
Qed.

(** When the call for the [k]-th host raises and the earlier ones return,
    the loop stops at the [k]-th future: the exception leaves
    [write_report], and the report holds the entries of the hosts before
    the [k]-th only. *)
Lemma write_report_aborts call cmd hosts k host e (results : nat → list string) :
  hosts !! k = Some host →
  result (call k host) = Raise e →
  (∀ i h, (i < k)%nat → hosts !! i = Some h → result (call i h) = Return (results i)) →
  result (write_report call cmd hosts) = Raise e ∧
  written (trace (write_report call cmd hosts)) = report_text cmd (take k hosts) results.
Proof.
  intros Hk He Hr.
  assert ((k < length hosts)%nat) as Hlt by (by eapply lookup_lt_Some).
  assert (length (take k hosts) = k) as Hlen by (rewrite length_take; lia).
  assert (∀ i h, take k hosts !! i = Some h →
                 result (call i h) = Return (results i)) as Hr'.
  { intros i h Hi. apply lookup_take_Some in Hi as [Hi Hik]. by apply Hr. }
  destruct (tasks_returns call (take k hosts) results Hr') as [Hall Htext].
  rewrite write_report_spec. cbn [result trace].
  rewrite <- (take_drop_middle hosts k host Hk) at 1 3.
  rewrite tasks_app, Hlen. cbn [Nat.add]. rewrite tasks_cons.
  rewrite (loop_outcome_aborts _ _ _ _ e Hall) by done.
  cbn [result trace fid]. split; [done|].
  change (written (EvOpenAppend report_file :: EvWrite (echo cmd) :: EvExecutor max_workers :: ?t))
    with (echo cmd +:+ written t).
  unfold report_text. f_equal. rewrite !written_app.
  rewrite written_concat_entries, Htext.
  rewrite written_imap by done.
  change (written [EvResult k]) with EmptyString.
  change (written [EvShutdown; EvFileClose]) with EmptyString.
  by rewrite !append_empty_r.
Qed.

(** X3: the port check is not inside the [try].  When [connect_ex] raises
    for the [k]-th host (a name that cannot be resolved) while the calls
    before it return, that call prints nothing and raises; every host has
    been submitted all the same, but the loop over the futures stops at the
    [k]-th: the process ends with status 1 and the report holds the echo
    line and the entries of the hosts before the [k]-th only. *)
Theorem unresolvable_host_ends_the_report json_load fs args net text ctext creds
    k host e (results : nat → list string) :
  fs !! inventory_file args = Some text →
  fs !! credentials_file args = Some ctext →
  json_load ctext = inr creds →
  (strip <$> file_readlines text) !! k = Some host →
  connect_ex_result (net k) host 22 = inl e →
  is_Exception e = true →
  (∀ i h, (i < k)%nat → (strip <$> file_readlines text) !! i = Some h →
          result (send_command (net i) h creds (command args)) = Return (results i)) →
  let r := run_main json_load fs args net in
  send_command (net k) host creds (command args) =
    mkM [EvSocket; EvConnectEx host 22] (Raise e) ∧
  status r = 1 ∧
  length (workers r) = length (file_readlines text) ∧
  report_of (files_after r) =
    report_of fs +:+ report_text (command args) (take k (strip <$> file_readlines text)) results.
Proof.
  intros Hi Hc Hj Hk He Hex Hr r.
  pose proof (probe_exception_propagates (net k) host creds (command args) e He) as Hraise.
  pose proof (load_inputs_ok json_load fs args text ctext creds Hi Hc Hj) as Hload.
  destruct (main_thread_loaded json_load fs args net _ _ Hload) as [Hm Ht].
  destruct (write_report_aborts
              (λ n h, send_command (net n) h creds (command args)) (command args)
              (strip <$> file_readlines text) k host e results) as [Hres Hw];
    [exact Hk|by rewrite Hraise|exact Hr|].
  split_and!; [exact Hraise| | |].
  - subst r. unfold run_main. cbn [status]. rewrite Hm, Hres. by destruct e.
  - by apply (workers_per_line json_load fs args net text ctext creds).
  - subst r. rewrite run_main_report. f_equal. unfold run_main. cbn [main_thread].
    by rewrite Hm.
Qed.

Lemma unresolvable_host_ends_the_report_witness :
  let r := run_main sample_json_load sample_files sample_arguments
                    sample_network_unresolvable in
  status r = 1 ∧
  length (workers r) = 3%nat ∧
  report_of (files_after r) =
    "Command run: net-stats -l" +:+ nl +:+ "Output from A:" +:+ nl +:+ "x" +:+ nl +:+ nl.
Proof.
  destruct (unresolvable_host_ends_the_report sample_json_load sample_files
              sample_arguments sample_network_unresolvable
              ("A" +:+ nl +:+ "B" +:+ nl +:+ "C" +:+ nl) "{...}" sample_credentials
              1%nat "B" (socket_gaierror "[Errno -2] Name or service not known")
              (λ _, ["x" +:+ nl]))
    as (_ & Hs & Hw & Hr); [reflexivity..| |].
  - intros [|i] h Hlt Hi; [|lia]. vm_compute in Hi. injection Hi as <-. reflexivity.
  - split_and!; [exact Hs|exact Hw|exact Hr].
Defined.

(** ** Failures that stay local *)

Lemma ssh_session_raises net host creds cmd e :
  raises_only_exceptions net →
  result (ssh_session net host creds cmd) = Raise e → is_Exception e = true.
Proof.
  intros (_ & Hconn & Hexec & Hread).
  unfold ssh_session, with_exit, getitem, ssh_connect, exec_command, stdout_readlines.
  cbn.
  destruct (creds !! "username") as [u|]; cbn; [|by intros [= <-]].
  destruct (creds !! "password") as [p|]; cbn; [|by intros [= <-]].
  destruct (connect_result net host u p) as [e'|] eqn:E1; cbn.
  { intros [= <-]. by eapply Hconn. }
  destruct (exec_command_result net host cmd) as [e'|chan] eqn:E2; cbn.
  { intros [= <-]. by eapply Hexec. }
  destruct (stdout_failure chan) as [e'|] eqn:E3; cbn; [|done].
  intros [= <-]. by eapply Hread.
Qed.

Lemma send_command_returns net host creds cmd :
  raises_only_exceptions net →
  ∃ changes, result (send_command net host creds cmd) = Return changes.
Proof.
  intros Hnet. destruct (Hnet) as (Hprobe & _).
  destruct (Hprobe host 22) as [errno Herrno].
  assert (result (check_port net host 22) = Return (errno =? 0)) as Hp
    by (by rewrite check_port_result, Herrno).
  destruct (errno =? 0).
  - rewrite (send_command_open _ _ _ _ Hp). cbn zeta.
    destruct (result (ssh_session net host creds cmd)) as [out|e] eqn:Hs; [by eexists|].
    pose proof (ssh_session_raises _ _ _ _ _ Hnet Hs) as He.
    unfold send_command_handler. rewrite He.
    destruct (is_socket_timeout e); by eexists.
  - rewrite (send_command_closed _ _ _ _ Hp). by eexists.
Qed.

(** X10: as long as no port check raises and everything else that fails
    raises an exception derived from [Exception], however many hosts are
    closed, time out or reject the credentials, every call returns, the
    process ends with status 0, and the report has, host by host, the entry
    of what that host's own call returned. *)
Theorem failures_leave_the_run_successful json_load fs args net text ctext creds :
  fs !! inventory_file args = Some text →
  fs !! credentials_file args = Some ctext →
  json_load ctext = inr creds →
  (∀ n, raises_only_exceptions (net n)) →
  let r := run_main json_load fs args net in
  let hosts := strip <$> file_readlines text in
  let call := λ n host, send_command (net n) host creds (command args) in
  status r = 0 ∧
  length (workers r) = length hosts ∧
  (∀ i host, hosts !! i = Some host →
             result (call i host) = Return (call_output call hosts i)) ∧
  report_of (files_after r) =
    report_of fs +:+ report_text (command args) hosts (call_output call hosts).
Proof.
  intros Hi Hc Hj Hnet r hosts call.
  assert (∀ i host, hosts !! i = Some host →
                    result (call i host) = Return (call_output call hosts i)) as Hr.
  { intros i host Hh. unfold call_output, output. rewrite Hh. cbn.
    destruct (send_command_returns (net i) host creds (command args) (Hnet i))
      as [changes Hc']. subst call. cbn. by rewrite Hc'. }
  pose proof (load_inputs_ok json_load fs args text ctext creds Hi Hc Hj) as Hload.
  destruct (main_thread_loaded json_load fs args net _ _ Hload) as [Hm Ht].
  destruct (write_report_returns call (command args) hosts _ Hr) as [Hres Hw].
  split_and!; [| |exact Hr|].
  - subst r. unfold run_main. cbn [status]. rewrite Hm. fold call hosts. by rewrite Hres.
  - subst hosts. rewrite length_fmap.
    by apply (workers_per_line json_load fs args net text ctext creds).
  - subst r. rewrite run_main_report. f_equal. unfold run_main. cbn [main_thread].
    rewrite Hm. exact Hw.
Qed.

Lemma failures_leave_the_run_successful_witness :
  let r := run_main sample_json_load sample_files sample_arguments
                    sample_network_failing in
  status r = 0 ∧
  length (workers r) = 3%nat ∧
  report_of (files_after r) =
    "Command run: net-stats -l" +:+ nl +:+
    "Output from C:" +:+ nl +:+ "y" +:+ nl +:+ "z" +:+ nl +:+ nl.
Proof.
  destruct (failures_leave_the_run_successful sample_json_load sample_files
              sample_arguments sample_network_failing
              ("A" +:+ nl +:+ "B" +:+ nl +:+ "C" +:+ nl) "{...}" sample_credentials)
    as (Hs & Hw & _ & Hr); [reflexivity..| |].
  - intros [|[|n]]; (split_and!; [by eexists|..]); cbn; intros; by simplify_eq.
  - split_and!; [exact Hs|exact Hw|exact Hr].
Defined.

(** ** The paths through send_command *)

Lemma ssh_session_shape net host creds cmd :
  ∃ body, trace (ssh_session net host creds cmd) = body ++ [EvSSHClose] ∧
          Forall (λ ev, ev ≠ EvSSHClose ∧ is_network ev = true) body.
Proof.
  unfold ssh_session, with_exit, getitem, ssh_connect, exec_command, stdout_readlines.
  cbn.
  destruct (creds !! "username") as [u|]; cbn; [|by exists []].
  destruct (creds !! "password") as [p|]; cbn; [|by exists []].
  destruct (connect_result net host u p); cbn.
  { eexists [_]. split; [done|]. by repeat constructor. }
  destruct (exec_command_result net host cmd) as [e|chan]; cbn.
  { eexists [_; _]. split; [done|]. by repeat constructor. }
  destruct (stdout_failure chan); cbn.
  - eexists [_; _; _]. split; [done|]. by repeat constructor.
  - eexists [_; _; _]. split; [done|]. by repeat constructor.
Qed.

Lemma ssh_session_returns net host creds cmd out :
  result (ssh_session net host creds cmd) = Return out →
  ∃ chan, exec_command_result net host cmd = inr chan ∧
          out = readlines (stdout_text chan).
Proof.
  unfold ssh_session, with_exit, getitem, ssh_connect, exec_command, stdout_readlines.
  cbn.
  destruct (creds !! "username") as [u|]; cbn; [|done].
  destruct (creds !! "password") as [p|]; cbn; [|done].
  destruct (connect_result net host u p); cbn; [done|].
  destruct (exec_command_result net host cmd) as [e|chan]; cbn; [done|].
  destruct (stdout_failure chan); cbn; [done|].
  intros [= <-]. by exists chan.
Qed.

Lemma handler_trace host e :
  Forall (λ ev, ∃ line, ev = EvPrint line) (trace (send_command_handler host e)) ∧
  (length (trace (send_command_handler host e)) ≤ 1)%nat.
Proof.
  unfold send_command_handler.
  destruct (is_socket_timeout e); [split; [repeat econstructor|cbn; lia]|].
  destruct (is_Exception e); split; cbn; try lia; repeat econstructor.
Qed.

(** X4: the SSH client is a context manager.  Once the port check has
    passed, every path through [send_command] closes the client exactly
    once, whether the session succeeds, fails with a handled exception, or
    raises one that [send_command] lets through, and no network operation
    follows the close.  When the port check has not passed, no SSH client
    is created at all. *)
Theorem session_is_closed_on_every_path net host creds cmd :
  let m := send_command net host creds cmd in
  (result (check_port net host 22) = Return true →
     ∃ pre post, trace m = pre ++ EvSSHClose :: post ∧
                 Forall (λ ev, ev ≠ EvSSHClose) pre ∧
                 Forall (λ ev, is_network ev = false) post) ∧
  (result (check_port net host 22) ≠ Return true →
     Forall (λ ev, is_handshake ev = false) (trace m)).
Proof.
  cbn zeta. split.
  - intros Hp. rewrite (send_command_open _ _ _ _ Hp). cbn zeta.
    destruct (ssh_session_shape net host creds cmd) as (body & Hb & Hbody).
    assert (Forall (λ ev, ev ≠ EvSSHClose)
              ([EvSocket; EvConnectEx host 22; EvSSHClient; EvSetPolicy] ++ body)) as Hpre.
    { apply Forall_app. split; [by repeat constructor|].
      eapply Forall_impl; [exact Hbody|]. by intros ev [? _]. }
    destruct (result (ssh_session net host creds cmd)) as [out|e]; cbn [trace].
    + exists ([EvSocket; EvConnectEx host 22; EvSSHClient; EvSetPolicy] ++ body), [].
      split_and!; [by rewrite Hb, <- !app_assoc|exact Hpre|constructor].
    + exists ([EvSocket; EvConnectEx host 22; EvSSHClient; EvSetPolicy] ++ body),
             (trace (send_command_handler host e)).
      split_and!; [by rewrite Hb, <- !app_assoc|exact Hpre|].
      destruct (handler_trace host e) as [Hh _].
      eapply Forall_impl; [exact Hh|]. by intros ev [line ->].
  - intros Hp. destruct (result (check_port net host 22)) as [[]|e] eqn:E; [done|..].
    + rewrite (send_command_closed _ _ _ _ E). by repeat constructor.
    + rewrite (send_command_probe_raises _ _ _ _ _ E). by repeat constructor.
Qed.

Lemma session_is_closed_on_every_path_witness :
  trace (send_command host_rejecting "esxi-07" sample_credentials "net-stats -l") =
    [EvSocket; EvConnectEx "esxi-07" 22; EvSSHClient; EvSetPolicy;
     EvConnect "esxi-07" "root" "vmware"] ++
    EvSSHClose ::
    [EvPrint (failure_message "esxi-07"
                (AuthenticationException "Authentication failed."))] ∧
  Forall (λ ev, is_handshake ev = false)
         (trace (send_command host_refusing "esxi-07" sample_credentials "net-stats -l")).
Proof.
  split.
  - destruct (session_is_closed_on_every_path host_rejecting "esxi-07"
                sample_credentials "net-stats -l") as [Hopen _].
    destruct (Hopen eq_refl) as (pre & post & Ht & _ & _). reflexivity.
  - destruct (session_is_closed_on_every_path host_refusing "esxi-07"
                sample_credentials "net-stats -l") as [_ Hclosed].
    apply Hclosed. discriminate.
Defined.

(** X5: of the credentials, [send_command] reads the values of [username]
    and [password] and nothing else: credentials that agree on these two
    keys give the same call, whatever other keys they hold. *)
Theorem only_username_and_password_are_read net host creds1 creds2 cmd :
  creds1 !! "username" = creds2 !! "username" →
  creds1 !! "password" = creds2 !! "password" →
  send_command net host creds1 cmd = send_command net host creds2 cmd.
Proof.
  intros Hu Hp. unfold send_command, ssh_session, getitem. by rewrite Hu, Hp.
Qed.

Lemma only_username_and_password_are_read_witness :
  send_command (host_printing "x") "esxi-07"
               (<["port" := "22"]> sample_credentials) "net-stats -l" =
  send_command (host_printing "x") "esxi-07" sample_credentials "net-stats -l".
Proof.
  apply (only_username_and_password_are_read (host_printing "x") "esxi-07"
           (<["port" := "22"]> sample_credentials) sample_credentials "net-stats -l");
    reflexivity.
Defined.

(** X6: a call prints at most one diagnostic, and output and diagnostic
    exclude each other: a call that returns lines has printed nothing, and
    the lines are those of the command's standard output; a call that has
    printed a diagnostic returns the empty list, and the diagnostic names
    the host. *)
Theorem output_and_diagnostic_exclude_each_other net host creds cmd :
  let m := send_command net host creds cmd in
  (length (diagnostics (trace m)) ≤ 1)%nat ∧
  (∀ l ls, result m = Return (l :: ls) →
           diagnostics (trace m) = [] ∧
           ∃ chan, exec_command_result net host cmd = inr chan ∧
                   readlines (stdout_text chan) = l :: ls) ∧
  (∀ d, diagnostics (trace m) = [d] → result m = Return [] ∧ names_host d host).
Proof.
  cbn zeta. destruct (result (check_port net host 22)) as [[]|e] eqn:Hp.
  - rewrite (send_command_open _ _ _ _ Hp). cbn zeta.
    pose proof (ssh_session_cases net host creds cmd) as [Hd _]. cbn zeta in Hd.
    destruct (result (ssh_session net host creds cmd)) as [out|e] eqn:Hs;
      cbn [trace result].
    + rewrite diagnostics_app, Hd. cbn. split_and!; [lia| |done].
      intros l ls [= ->]. split; [done|].
      destruct (ssh_session_returns _ _ _ _ _ Hs) as (chan & He & Hout). eauto.
    + rewrite !diagnostics_app, Hd. cbn [app diagnostics omap list_omap].
      unfold send_command_handler.
      destruct (is_socket_timeout e).
      { cbn. split_and!; [lia|done|]. intros d [= <-]. split; [done|].
        by exists "Socket timeout when trying to connect to ", ".". }
      destruct (is_Exception e); cbn; (split_and!; [lia|done|]); [|done].
      intros d [= <-]. split; [done|apply failure_names_host].
  - rewrite (send_command_closed _ _ _ _ Hp). cbn. split_and!; [lia|done|].
    intros d [= <-]. split; [done|apply port_closed_names_host].
  - rewrite (send_command_probe_raises _ _ _ _ _ Hp). cbn. split_and!; [lia|done|done].
Qed.

Lemma output_and_diagnostic_exclude_each_other_witness :
  diagnostics (trace (send_command (sample_network 2) "C" sample_credentials
                                   "net-stats -l")) = [] ∧
  result (send_command host_timing_out "esxi-07" sample_credentials "net-stats -l") =
    Return [].
Proof.
  split.
  - destruct (output_and_diagnostic_exclude_each_other (sample_network 2) "C"
                sample_credentials "net-stats -l") as (_ & Hout & _).
    destruct (Hout ("y" +:+ nl) ["z" +:+ nl] eq_refl) as [Hd _]. exact Hd.
  - destruct (output_and_diagnostic_exclude_each_other host_timing_out "esxi-07"
                sample_credentials "net-stats -l") as (_ & _ & Hdiag).
    destruct (Hdiag (timeout_message "esxi-07") eq_refl) as [Hr _]. exact Hr.
Defined.

(** ** Who does what *)

Lemma send_command_events net host creds cmd :
  Forall (λ ev, is_network ev = true ∨ ∃ line, ev = EvPrint line)
         (trace (send_command net host creds cmd)).
Proof.
  destruct (result (check_port net host 22)) as [[]|e] eqn:Hp.
  - rewrite (send_command_open _ _ _ _ Hp). cbn zeta.
    destruct (ssh_session_shape net host creds cmd) as (body & Hb & Hbody).
    assert (Forall (λ ev, is_network ev = true ∨ ∃ line, ev = EvPrint line)
              (trace (ssh_session net host creds cmd))) as Hs.
    { rewrite Hb. apply Forall_app. split; [|constructor; [by left|constructor]].
      eapply Forall_impl; [exact Hbody|]. intros ev [_ ?]. by left. }
    destruct (result (ssh_session net host creds cmd)) as [out|e]; cbn [trace].
    + apply Forall_app. split; [|exact Hs].
      do 4 (constructor; [by left|]). constructor.
    + apply Forall_app. split; [do 4 (constructor; [by left|]); constructor|].
      apply Forall_app. split; [exact Hs|].
      destruct (handler_trace host e) as [Hh _].
      eapply Forall_impl; [exact Hh|]. intros ev ?. by right.
  - rewrite (send_command_closed _ _ _ _ Hp).
    do 2 (constructor; [by left|]). constructor; [right; by eexists|constructor].
  - rewrite (send_command_probe_raises _ _ _ _ _ Hp).
    do 2 (constructor; [by left|]). constructor.
Qed.

Lemma main_thread_events json_load fs args net :
  Forall (λ ev, is_network ev = false) (main_thread (run_main json_load fs args net)).
Proof.
  unfold run_main. cbn [main_thread]. rewrite main_unfold.
  pose proof (load_inputs_prints json_load fs args) as Hp.
  assert (Forall (λ ev, is_network ev = false) (trace (load_inputs json_load fs args)))
    as Hl.
  { eapply Forall_impl; [exact Hp|]. by intros ev [line ->]. }
  destruct (result (load_inputs json_load fs args)) as [[hosts creds]|e]; [|done].
  cbn [trace]. apply Forall_app. split; [done|]. rewrite write_report_spec. cbn [trace].
  do 3 (constructor; [done|]). apply Forall_app. split.
  - apply Forall_forall. intros ev Hin.
    by apply elem_of_lookup_imap_1 in Hin as (i & h & -> & _).
  - apply Forall_app. split; [|by repeat constructor].
    eapply Forall_impl; [apply loop_outcome_quiet|]. by intros ev (_ & ? & _).
Qed.

(** X11: the threads keep to their own resources.  A call does network
    operations and prints diagnostics, nothing else: it never writes to the
    report file and never submits a call.  The main thread never touches
    the network: it reads the inputs, drives the pool and writes the
    report. *)
Theorem threads_keep_to_their_resources :
  (∀ net host creds cmd,
     Forall (λ ev, is_network ev = true ∨ ∃ line, ev = EvPrint line)
            (trace (send_command net host creds cmd))) ∧
  (∀ json_load fs args net,
     Forall (λ ev, is_network ev = false)
            (main_thread (run_main json_load fs args net)) ∧
     Forall (Forall (λ ev, is_network ev = true ∨ ∃ line, ev = EvPrint line))
            (workers (run_main json_load fs args net))).
Proof.
  split; [apply send_command_events|]. intros jl fs args net.
  split; [apply main_thread_events|].
  unfold run_main, main_tasks. cbn [workers].
  destruct (result (load_inputs jl fs args)) as [[hosts creds]|e]; [|constructor].
  rewrite submitted_spec. apply Forall_fmap, Forall_fmap. unfold tasks.
  apply Forall_forall. intros kv Hin.
  apply elem_of_lookup_imap_1 in Hin as (i & h & -> & _). cbn.
  apply send_command_events.
Qed.

Lemma loop_outcome_events entries :
  Forall (λ ev, (∃ k, ev = EvResult k) ∨ ∃ text, ev = EvWrite text)
         (trace (loop_outcome entries)).
Proof.
  induction entries as [|[fut host] entries IH]; [constructor|]. cbn.
  destruct (result (work fut)) as [changes|e]; cbn.
  - constructor; [left; by eexists|]. apply Forall_app. split; [|exact IH].
    destruct changes as [|l ls]; [constructor|]. cbn.
    do 2 (constructor; [right; by eexists|]). apply Forall_app. split.
    + apply Forall_fmap, Forall_true. intros t. right. by eexists.
    + constructor; [right; by eexists|constructor].
  - constructor; [left; by eexists|constructor].
Qed.

(** X12: whatever the calls do, [write_report] opens the report, writes the
    echo line, creates the executor and submits every host before it waits
    for the first result; and on every path, also when a result raises, it
    ends by shutting the executor down and then closing the file, each
    exactly once. *)
Theorem pool_and_file_are_released_on_every_path call cmd hosts :
  ∃ loop,
    trace (write_report call cmd hosts) =
      [EvOpenAppend report_file; EvWrite (echo cmd); EvExecutor max_workers] ++
      imap EvSubmit hosts ++ loop ++ [EvShutdown; EvFileClose] ∧
    Forall (λ ev, is_submit ev = false ∧ is_file_ctl ev = false ∧ ev ≠ EvShutdown) loop.
Proof.
  exists (trace (loop_outcome (tasks call 0 hosts))). split.
  - by rewrite write_report_spec.
  - eapply Forall_impl; [apply loop_outcome_events|].
    intros ev [[k ->]|[text ->]]; by split_and!.
Qed.

(** ** Reading a diagnostic *)

Lemma append_inj_r (a b c : string) : a +:+ c = b +:+ c → a = b.
Proof.
  revert b. induction a as [|x a IH]; intros [|y b] H.
  - done.
  - exfalso. apply (f_equal String.length) in H.
    rewrite append_empty_l, length_append in H. cbn in H. lia.
  - exfalso. apply (f_equal String.length) in H.
    rewrite append_empty_l, length_append in H. cbn in H. lia.
  - rewrite !append_cons in H. injection H as -> H. f_equal. by apply IH.
Qed.

(** X13: a diagnostic tells the operator which failure it reports and, for
    a closed port or a timeout, which host: the three kinds of diagnostic
    never coincide, whatever the hosts and the error text, and the
    closed-port and timeout diagnostics of different hosts differ. *)
Theorem diagnostic_tells_kind_and_host :
  (∀ host host', port_closed_message host = port_closed_message host' → host = host') ∧
  (∀ host host', timeout_message host = timeout_message host' → host = host') ∧
  (∀ host host' e,
     port_closed_message host ≠ timeout_message host' ∧
     port_closed_message host ≠ failure_message host' e ∧
     timeout_message host ≠ failure_message host' e).
Proof.
  split_and!.
  - unfold port_closed_message. intros host host' H.
    apply (inj (String.app "The ESXi host ")) in H. by apply append_inj_r in H.
  - unfold timeout_message. intros host host' H.
    apply (inj (String.app "Socket timeout when trying to connect to ")) in H.
    by apply append_inj_r in H.
  - intros host host' e. unfold port_closed_message, timeout_message, failure_message,
      failure_prefix. split_and!; cbn; discriminate.
Qed.

Lemma diagnostic_tells_kind_and_host_witness :
  port_closed_message "esxi-01" ≠ port_closed_message "esxi-02" ∧
  port_closed_message "esxi-01" ≠ timeout_message "esxi-01".
Proof.
  destruct diagnostic_tells_kind_and_host as (Hp & _ & Hk). split.
  - intros H. apply Hp in H. discriminate.
  - apply (Hk "esxi-01" "esxi-01" (OSError EmptyString)).
Defined.

(** ** No second attempt *)

(** X14: a call never tries anything twice.  It probes the port exactly
    once, and always port 22 of its own host; it calls [connect] at most
    once and [exec_command] at most once, whatever fails. *)
Theorem nothing_is_retried net host creds cmd :
  let tr := trace (send_command net host creds cmd) in
  List.filter is_probe tr = [EvConnectEx host 22] ∧
  (count_events is_connect tr ≤ 1)%nat ∧
  (count_events is_exec tr ≤ 1)%nat.
Proof.
  cbn zeta.
  unfold send_command, check_port, connect_ex, ssh_session, with_exit, getitem,
    ssh_connect, exec_command, stdout_readlines, send_command_handler, try_except,
    count_events.
  destruct (connect_ex_result net host 22) as [e|errno]; cbn; [split_and!; [done|lia..]|].
  destruct (errno =? 0); cbn; [|split_and!; [done|lia..]].
  destruct (creds !! "username") as [u|]; cbn; [|split_and!; [done|lia..]].
  destruct (creds !! "password") as [p|]; cbn; [|split_and!; [done|lia..]].
  destruct (connect_result net host u p) as [e|]; cbn.
  { destruct (is_socket_timeout e); [|destruct (is_Exception e)]; cbn;
      split_and!; done || lia. }
  destruct (exec_command_result net host cmd) as [e|chan]; cbn.
  { destruct (is_socket_timeout e); [|destruct (is_Exception e)]; cbn;
      split_and!; done || lia. }
  destruct (stdout_failure chan) as [e|]; cbn; [|split_and!; [done|lia..]].
  destruct (is_socket_timeout e); [|destruct (is_Exception e)]; cbn;
    split_and!; done || lia.
Qed.
